(** * robolocopy: exclusion-aware copy engine

    A shallow embedding of [src/utils.ts] and [src/index.ts] and the
    properties of the pattern normaliser, the path matcher, the robocopy
    exclusion translator, the batched copier and the copy orchestrator. *)

From Stdlib Require Import List Ascii Bool Arith ZArith Lia Permutation.
From Stdlib.Strings Require Import Byte.
From Stdlib Require String DecimalString.
From Equations Require Import Equations.
Import ListNotations.

Set Implicit Arguments.

(* ===================================================================== *)
(** * JavaScript strings *)
(* ===================================================================== *)

(** A JavaScript string is a sequence of code units.  The embedding keeps
    the code units of the Latin-1 range, which contains every character the
    program tests for (slash, backslash, star, question mark, dot, comma and
    the white space that [trim] removes). *)
Definition str := list ascii.

Inductive strLit := LNil | LCons (a : ascii) (s : strLit).

Fixpoint strLit_of_bytes (l : list byte) : strLit :=
  match l with
  | [] => LNil
  | b :: l' => LCons (ascii_of_byte b) (strLit_of_bytes l')
  end.

Fixpoint bytes_of_strLit (s : strLit) : list byte :=
  match s with
  | LNil => []
  | LCons a s' => byte_of_ascii a :: bytes_of_strLit s'
  end.

Declare Scope str_scope.
Delimit Scope str_scope with str.
#[warnings="-via-type-remapping,-via-type-mismatch"]
String Notation str strLit_of_bytes bytes_of_strLit
  (via strLit mapping [[nil] => LNil, [cons] => LCons]) : str_scope.
Open Scope str_scope.
Open Scope list_scope.

Definition str_eqb (a b : str) : bool :=
  if list_eq_dec ascii_dec a b then true else false.

(** [s.length === 0], the falsy string. *)
Definition isEmpty (s : str) : bool :=
  match s with [] => true | _ :: _ => false end.

(** [s.startsWith(pre)] *)
Fixpoint startsWith (s pre : str) : bool :=
  match pre, s with
  | [], _ => true
  | _ :: _, [] => false
  | p :: pre', c :: s' => Ascii.eqb c p && startsWith s' pre'
  end.

(** [s.endsWith(suf)]: the last [suf.length] code units of [s] are [suf]. *)
Definition endsWith (s suf : str) : bool :=
  (length suf <=? length s)%nat
  && str_eqb (skipn (length s - length suf) s) suf.

(** [s.includes(sub)] *)
Fixpoint includes (s sub : str) : bool :=
  startsWith s sub
  || match s with
     | [] => false
     | _ :: s' => includes s' sub
     end.

(** The index that [slice] computes from a relative argument: a negative
    argument counts from the end, and the result is clamped to
    [0 .. length]. *)
Definition relIndex (len : nat) (k : Z) : nat :=
  if (k <? 0)%Z then Z.to_nat (Z.max (Z.of_nat len + k) 0)
  else Nat.min (Z.to_nat k) len.

(** [s.slice(a, b)] *)
Definition slice (s : str) (a b : Z) : str :=
  let from := relIndex (length s) a in
  let to := relIndex (length s) b in
  firstn (to - from) (skipn from s).

(** [s.replace(/c/g, d)] for a one-character pattern [c] and a
    one-character replacement [d]. *)
Definition replaceChar (c d : ascii) (s : str) : str :=
  map (fun x => if Ascii.eqb x c then d else x) s.

(** [s.replace(/\*\*/g, '*')]: the matches are found left to right and do
    not overlap. *)
Fixpoint replaceStarStar (s : str) : str :=
  match s with
  | "*"%char :: "*"%char :: rest => "*"%char :: replaceStarStar rest
  | c :: rest => c :: replaceStarStar rest
  | [] => []
  end.

(** [s.split(sep)] for a one-character separator: never an empty array. *)
Fixpoint split (sep : ascii) (s : str) : list str :=
  match s with
  | [] => [[]]
  | c :: s' =>
      if Ascii.eqb c sep then [] :: split sep s'
      else match split sep s' with
           | p :: ps => (c :: p) :: ps
           | [] => [[c]]
           end
  end.

(** [parts.join(sep)] *)
Fixpoint join (sep : str) (parts : list str) : str :=
  match parts with
  | [] => []
  | [p] => p
  | p :: ps => p ++ sep ++ join sep ps
  end.

(** White space and line terminators of ECMAScript in the Latin-1 range:
    TAB, LF, VT, FF, CR, SP and NBSP. *)
Definition isWhiteSpace (c : ascii) : bool :=
  match nat_of_ascii c with
  | 9 | 10 | 11 | 12 | 13 | 32 | 160 => true
  | _ => false
  end.

Fixpoint trimStart (s : str) : str :=
  match s with
  | [] => []
  | c :: s' => if isWhiteSpace c then trimStart s' else s
  end.

Fixpoint trimEnd (s : str) : str :=
  match s with
  | [] => []
  | c :: s' =>
      match trimEnd s' with
      | [] => if isWhiteSpace c then [] else [c]
      | t => c :: t
      end
  end.

(** [s.trim()] *)
Definition trim (s : str) : str := trimEnd (trimStart s).

(** [arr.some(f)] *)
Definition some {A} (f : A -> bool) (arr : list A) : bool := existsb f arr.

(** [[...new Set(arr)]]: the distinct elements in the order of their first
    occurrence. *)
Fixpoint uniqueFrom (seen arr : list str) : list str :=
  match arr with
  | [] => []
  | x :: arr' =>
      if existsb (str_eqb x) seen then uniqueFrom seen arr'
      else x :: uniqueFrom (x :: seen) arr'
  end.

Definition unique (arr : list str) : list str := uniqueFrom [] arr.

(** [String(n)] for a non-negative integer. *)
Definition showNat (n : nat) : str :=
  String.list_ascii_of_string
    (DecimalString.NilEmpty.string_of_uint (Nat.to_uint n)).

(* ===================================================================== *)
(** * src/utils.ts *)
(* ===================================================================== *)

(** The inner loop of [processExcludePatterns]: one comma-separated value. *)
Definition pushTrimmed (patterns : list str) (value : str) : list str :=
  let trimmed := trim value in
  if negb (isEmpty trimmed) then patterns ++ [trimmed] else patterns.

(** The outer loop body: one exclude option. *)
Definition pushOption (patterns : list str) (option : str) : list str :=
  let commaValues := split "," option in
  fold_left pushTrimmed commaValues patterns.

Definition processExcludePatterns (excludeOptions : list str) : list str :=
  if (length excludeOptions =? 0)%nat then []
  else fold_left pushOption excludeOptions [].

(** The normaliser in the words of the specification: split each token on
    a comma, trim each piece, discard the pieces that are empty after
    trimming, concatenate in encounter order. *)
Definition normalize_spec (raw : list str) : list str :=
  flat_map
    (fun token =>
       filter (fun piece => negb (isEmpty piece))
              (map trim (split "," token)))
    raw.

(** A string is padded when its first or its last code unit is white
    space. *)
Definition leadingWhiteSpace (s : str) : bool :=
  match s with [] => false | c :: _ => isWhiteSpace c end.

Definition trailingWhiteSpace (s : str) : bool :=
  leadingWhiteSpace (rev s).

(* ===================================================================== *)
(** * src/index.ts: the robocopy exclusion translator *)
(* ===================================================================== *)

Record RobocopyExcludes := mkExcludes {
  dirExcludes : list str;
  fileExcludes : list str
}.

Definition pushDir (acc : RobocopyExcludes) (d : str) : RobocopyExcludes :=
  mkExcludes (dirExcludes acc ++ [d]) (fileExcludes acc).

Definition pushFile (acc : RobocopyExcludes) (f : str) : RobocopyExcludes :=
  mkExcludes (dirExcludes acc) (fileExcludes acc ++ [f]).

(** The two empty arrays that the translator starts from. *)
Definition noExcludes : RobocopyExcludes := mkExcludes [] [].

(** The body of the [for (const pattern of excludePatterns)] loop of
    [processExcludePatternsForRobocopy]. *)
Definition translatePattern (acc : RobocopyExcludes) (pattern : str)
  : RobocopyExcludes :=
  let normalizedPattern := replaceChar "\" "/" pattern in
  if endsWith normalizedPattern "/**" then
    let dirName :=
      slice normalizedPattern 0 (Z.of_nat (length normalizedPattern) - 3) in
    pushDir acc dirName
  else if includes normalizedPattern "/" then
    let parts := split "/" normalizedPattern in
    if negb (includes (nth (length parts - 1) parts []) "*") then
      pushDir acc (join "\" parts)
    else acc
  else
    let filePattern := replaceChar "?" "?" (replaceStarStar normalizedPattern) in
    if endsWith filePattern "/" then
      pushDir acc (slice filePattern 0 (-1))
    else if negb (includes filePattern "*") && negb (includes filePattern "?") then
      if negb (includes filePattern ".") then pushDir acc filePattern
      else pushFile acc filePattern
    else pushFile acc filePattern.

(** The four [if (excludePatterns.some(...))] statements after the loop:
    the substring looked for and the directory pushed. *)
Definition commonPatterns : list (str * str) :=
  [("node_modules", "node_modules"); ("dist/", "dist");
   ("build/", "build"); (".git", ".git")].

Definition pushCommon (excludePatterns : list str) (acc : RobocopyExcludes)
  (rule : str * str) : RobocopyExcludes :=
  if some (fun p => includes p (fst rule)) excludePatterns
  then pushDir acc (snd rule)
  else acc.

Definition processExcludePatternsForRobocopy (excludePatterns : list str)
  : RobocopyExcludes :=
  let acc := fold_left translatePattern excludePatterns noExcludes in
  let acc := fold_left (pushCommon excludePatterns) commonPatterns acc in
  mkExcludes (unique (dirExcludes acc)) (unique (fileExcludes acc)).

(* ===================================================================== *)
(** * src/index.ts: the path matcher *)
(* ===================================================================== *)

(** [minimatch(path, pattern, { dot: true })] of the minimatch package, a
    dependency whose code is not part of the repository.  [shouldExclude]
    is defined and studied for an arbitrary matcher. *)
Class Minimatch := minimatch : str -> str -> bool.

Definition shouldExclude `{Minimatch} (filePath : str)
  (excludePatterns : list str) : bool :=
  if (length excludePatterns =? 0)%nat then false
  else
    let normalizedPath := replaceChar "\" "/" filePath in
    some (fun pattern =>
            let normalizedPattern := replaceChar "\" "/" pattern in
            minimatch normalizedPath normalizedPattern)
         excludePatterns.

Inductive GlobToken :=
| GlobStar
| Star
| Question
| Lit (c : ascii).

Fixpoint globTokens (pattern : str) : list GlobToken :=
  match pattern with
  | "*"%char :: "*"%char :: rest => GlobStar :: globTokens rest
  | "*"%char :: rest => Star :: globTokens rest
  | "?"%char :: rest => Question :: globTokens rest
  | c :: rest => Lit c :: globTokens rest
  | [] => []
  end.

Definition isSeparator (c : ascii) : bool := Ascii.eqb c "/".

Fixpoint globMatch (tokens : list GlobToken) (path : str) : bool :=
  match tokens with
  | [] => isEmpty path
  | Lit c :: tokens' =>
      match path with
      | x :: path' => Ascii.eqb x c && globMatch tokens' path'
      | [] => false
      end
  | Question :: tokens' =>
      match path with
      | x :: path' => negb (isSeparator x) && globMatch tokens' path'
      | [] => false
      end
  | Star :: tokens' =>
      (fix star (rest : str) : bool :=
         globMatch tokens' rest
         || match rest with
            | x :: rest' => negb (isSeparator x) && star rest'
            | [] => false
            end) path
  | GlobStar :: tokens' =>
      (fix globstar (rest : str) : bool :=
         globMatch tokens' rest
         || match rest with
            | _ :: rest' => globstar rest'
            | [] => false
            end) path
  end.

(** Modelled from the spec: the glob matcher that [shouldExclude] calls
    (minimatch with dot matching on) is missing from the sources.  Section
    4.2 gives its semantics: a star matches any sequence of characters
    except the path separator, a double star matches any sequence of
    characters including path separators, a question mark matches exactly
    one character except the separator, and with dot matching on a leading
    dot is matched like any other character. *)
Definition specMinimatch : Minimatch :=
  fun path pattern => globMatch (globTokens pattern) path.

(* ===================================================================== *)
(** * Effects: errors, the console, the host *)
(* ===================================================================== *)

(** The value of the [status] property of a thrown object.  The program
    reads it through the unchecked assertion [error as { status?: number }],
    so at run time it is whatever the thrower stored. *)
Inductive JsStatus :=
| StatusUndefined
| StatusNull
| StatusNumber (n : Z).

Record JsError := mkError {
  message : str;
  status : JsStatus
}.

(** The outcome of awaiting a promise or of a synchronous call. *)
Inductive Completion (A : Type) :=
| Return (a : A)
| Throw (e : JsError).
Arguments Return {A} a.
Arguments Throw {A} e.

(** [v !== undefined] *)
Definition notUndefined (v : JsStatus) : bool :=
  match v with
  | StatusUndefined => false
  | _ => true
  end.

(** ToNumber: [undefined] is NaN (no integer), [null] is [0]. *)
Definition toNumber (v : JsStatus) : option Z :=
  match v with
  | StatusUndefined => None
  | StatusNull => Some 0%Z
  | StatusNumber n => Some n
  end.

(** [v <= k]: the operands are converted by ToNumber, and a comparison
    with NaN is false. *)
Definition lessOrEqual (v : JsStatus) (k : Z) : bool :=
  match toNumber v with
  | Some n => (n <=? k)%Z
  | None => false
  end.

Inductive Color := Blue | Yellow | Green | Red.

(** A line written to the console: a chalk-coloured text, or an error
    object passed to [console.error] as it is. *)
Inductive LogLine :=
| Colored (c : Color) (text : str)
| Inspect (e : JsError).

Inductive Stdio := Inherit | Ignore.

Record FsCopyOptions := mkFsCopyOptions {
  preserveTimestamps : bool;
  errorOnExist : bool
}.

(** The calls that the program makes to fs-extra, fast-glob and
    child_process, in the order in which it makes them. *)
Inductive Call :=
| CallAccess (path : str)
| CallStat (path : str)
| CallEnsureDir (path : str)
| CallCopy (src dest : str) (options : option FsCopyOptions)
| CallGlob (cwd : str)
| CallExecSync (command : str) (stdio : Stdio).

(** The libraries and the operating system under the program.  [S] is the
    state of the machine (the file system); the functions of [path] and
    [os.platform()] do not change during a run. *)
Class Host (S : Type) := {
  path_resolve : str -> str;
  path_resolve2 : str -> str -> str;
  path_join : str -> str -> str;
  path_dirname : str -> str;
  path_basename : str -> str;
  os_platform : str;
  fs_access : str -> S -> S * Completion unit;
  (** [fs.stat(p)], reduced to the [isDirectory()] of the result *)
  fs_stat : str -> S -> S * Completion bool;
  fs_ensureDir : str -> S -> S * Completion unit;
  fs_copy : str -> str -> option FsCopyOptions -> S -> S * Completion unit;
  (** [fg(['**'], { cwd, dot: true, onlyFiles: false,
      followSymbolicLinks: false })] *)
  fg_all : str -> S -> S * Completion (list str);
  execSync : str -> Stdio -> S -> S * Completion unit
}.

Record World (S : Type) := mkWorld {
  machine : S;
  stdout : list LogLine;
  stderr : list LogLine;
  calls : list Call
}.

(** The locals of the directory branch of [useNodeImplementation] that the
    per-entry closures share. *)
Record Frame (S : Type) := mkFrame {
  world : World S;
  copiedCount : nat
}.

(** A computation over a state [St] that returns or throws. *)
Definition M (St A : Type) : Type := St -> St * Completion A.

Definition ret {St A} (a : A) : M St A := fun st => (st, Return a).

Definition throw {St A} (e : JsError) : M St A := fun st => (st, Throw e).

Definition bind {St A B} (m : M St A) (k : A -> M St B) : M St B :=
  fun st =>
    match m st with
    | (st', Return a) => k a st'
    | (st', Throw e) => (st', Throw e)
    end.

(** [try { m } catch (e) { handler e }] *)
Definition tryCatch {St A} (m : M St A) (handler : JsError -> M St A)
  : M St A :=
  fun st =>
    match m st with
    | (st', Return a) => (st', Return a)
    | (st', Throw e) => handler e st'
    end.

Notation "x <- m ;; k" := (bind m (fun x => k))
  (at level 61, m at next level, right associativity).
Notation "m ;;; k" := (bind m (fun _ => k))
  (at level 61, right associativity).

Definition when {St} (b : bool) (m : M St unit) : M St unit :=
  if b then m else ret tt.

Fixpoint forEach {St A} (f : A -> M St unit) (arr : list A) : M St unit :=
  match arr with
  | [] => ret tt
  | x :: arr' => f x ;;; forEach f arr'
  end.

(** [await Promise.all(tasks)] for tasks that are already started: every
    task runs to its end (a rejection cancels nothing), and the await
    throws the first rejection if there is one.  The tasks run here one
    after the other in the order of the array.  This is one schedule
    among those of the event loop, which may interleave the calls of the
    tasks in another order: the statements on a batch are therefore about
    counts, sets of calls and permutations of lines, not about the order
    in which the tasks of a batch act. *)
Fixpoint promiseAll {St} (tasks : list (M St unit)) : M St unit :=
  match tasks with
  | [] => ret tt
  | task :: tasks' =>
      fun st =>
        match task st with
        | (st1, r1) =>
            match promiseAll tasks' st1 with
            | (st2, r2) =>
                (st2, match r1 with
                      | Throw e => Throw e
                      | Return _ => r2
                      end)
            end
        end
  end.

Section Effects.
Context {S : Type} `{Host S}.

Definition hostCall {A} (c : Call) (op : S -> S * Completion A)
  : M (World S) A :=
  fun w =>
    match op (machine w) with
    | (s', r) => (mkWorld s' (stdout w) (stderr w) (calls w ++ [c]), r)
    end.

Definition access (p : str) : M (World S) unit :=
  hostCall (CallAccess p) (fs_access p).

Definition stat (p : str) : M (World S) bool :=
  hostCall (CallStat p) (fs_stat p).

Definition ensureDir (p : str) : M (World S) unit :=
  hostCall (CallEnsureDir p) (fs_ensureDir p).

Definition copy (src dest : str) (o : option FsCopyOptions)
  : M (World S) unit :=
  hostCall (CallCopy src dest o) (fs_copy src dest o).

Definition glob (cwd : str) : M (World S) (list str) :=
  hostCall (CallGlob cwd) (fg_all cwd).

Definition exec (command : str) (stdio : Stdio) : M (World S) unit :=
  hostCall (CallExecSync command stdio) (execSync command stdio).

Definition consoleLog (l : LogLine) : M (World S) unit :=
  fun w =>
    (mkWorld (machine w) (stdout w ++ [l]) (stderr w) (calls w), Return tt).

Definition consoleError (l : LogLine) : M (World S) unit :=
  fun w =>
    (mkWorld (machine w) (stdout w) (stderr w ++ [l]) (calls w), Return tt).

(** A computation on the world, run inside the frame of the closures. *)
Definition inWorld {A} (m : M (World S) A) : M (Frame S) A :=
  fun f =>
    match m (world f) with
    | (w', r) => (mkFrame w' (copiedCount f), r)
    end.

(** [copiedCount++] *)
Definition incrementCopied : M (Frame S) unit :=
  fun f => (mkFrame (world f) (copiedCount f + 1), Return tt).

Definition readCopied : M (Frame S) nat :=
  fun f => (f, Return (copiedCount f)).

End Effects.

(* ===================================================================== *)
(** * src/index.ts: the copy engine *)
(* ===================================================================== *)

Definition DEFAULT_EXCLUDE_PATTERNS : list str :=
  ["node_modules/**"; "dist/**"; "build/**"; "temp/**"; "delete/**";
   "bin/**"; "obj/**"; "cache/**"; "tmp/**"; ".DS_Store"; "coverage/**";
   ".cache/**"; ".idea/**"; "*.log"].

Record CopyOptions := mkCopyOptions {
  excludePatterns : list str;
  ignoreDefaults : bool;
  verbose : bool
}.

Definition BATCH_SIZE : nat := 100.

Definition doubleQuote : ascii := ascii_of_nat 34.

(** The template [`"${s}"`]. *)
Definition quoted (s : str) : str := doubleQuote :: s ++ [doubleQuote].

(** [arr.slice(i, j)] for indices that are not negative. *)
Definition arraySlice {A} (arr : list A) (i j : nat) : list A :=
  firstn (j - i) (skipn i arr).

(** The command line that [useWindowsRobocopy] builds. *)
Definition robocopyCommand (sourceDir destDir : str)
  (excludes : RobocopyExcludes) : str :=
  let command :=
    "robocopy " ++ quoted sourceDir ++ " " ++ quoted destDir
    ++ " /E /NFL /NDL" in
  let command :=
    if (0 <? length (fileExcludes excludes))%nat
    then command ++ " /XF " ++ join " " (map quoted (fileExcludes excludes))
    else command in
  if (0 <? length (dirExcludes excludes))%nat
  then command ++ " /XD " ++ join " " (map quoted (dirExcludes excludes))
  else command.

Section Engine.
Context {S : Type} `{Host S} `{Minimatch}.

Definition useWindowsRobocopy (inputPath outputPath : str)
  (excludePatterns : list str) (verbose : bool) : M (World S) unit :=
  let sourceDir := path_resolve inputPath in
  let destDir := path_resolve outputPath in
  let excludes := processExcludePatternsForRobocopy excludePatterns in
  let command := robocopyCommand sourceDir destDir excludes in
  when verbose
    (consoleLog (Colored Blue ("Using robocopy: " ++ command)) ;;;
     when (0 <? length (dirExcludes excludes))%nat
       (consoleLog (Colored Yellow "Directory exclusions:") ;;;
        forEach (fun dir => consoleLog (Colored Yellow ("- " ++ dir)))
                (dirExcludes excludes)) ;;;
     when (0 <? length (fileExcludes excludes))%nat
       (consoleLog (Colored Yellow "File exclusions:") ;;;
        forEach (fun file => consoleLog (Colored Yellow ("- " ++ file)))
                (fileExcludes excludes))) ;;;
  tryCatch
    (exec command (if verbose then Inherit else Ignore))
    (fun error =>
       let exitCode := status error in
       if notUndefined exitCode && lessOrEqual exitCode 7
       then ret tt
       else throw error).

(** The statements of the [try] block that touch the file system: the
    copy of one entry. *)
Definition copyOne (sourcePath destPath : str) : M (World S) unit :=
  isDirectory <- stat sourcePath ;;
  if isDirectory : bool
  then ensureDir destPath
  else copy sourcePath destPath (Some (mkFsCopyOptions true false)).

(** The closure that [batch.map] starts for one entry. *)
Definition copyEntry (inputPathResolved outputPath : str) (verbose : bool)
  (entry : str) : M (Frame S) unit :=
  let sourcePath := path_join inputPathResolved entry in
  let destPath := path_join outputPath entry in
  inWorld (ensureDir (path_dirname destPath)) ;;;
  tryCatch
    (inWorld (copyOne sourcePath destPath) ;;;
     incrementCopied ;;;
     count <- readCopied ;;
     when (verbose && (count mod 100 =? 0)%nat)
       (inWorld (consoleLog
          (Colored Green
             ("Progress: copied " ++ showNat count ++ " entries...")))))
    (fun err =>
       inWorld (consoleError
         (Colored Red ("Failed to copy " ++ entry ++ ": " ++ message err)))).

(** The loop [for (let i = 0; i < filteredEntries.length; i += BATCH_SIZE)]
    from the value [i] of its counter on. *)
Equations copyBatches (inputPathResolved outputPath : str) (verbose : bool)
  (filteredEntries : list str) (i : nat) (frame : Frame S)
  : Frame S * Completion unit
  by wf (length filteredEntries - i) lt :=
copyBatches inputPathResolved outputPath verbose filteredEntries i frame
  with lt_dec i (length filteredEntries) => {
  | right _ => (frame, Return tt)
  | left _
      with promiseAll
             (map (copyEntry inputPathResolved outputPath verbose)
                  (arraySlice filteredEntries i (i + BATCH_SIZE)))
             frame => {
      | (frame', Throw e) => (frame', Throw e)
      | (frame', Return _) =>
          copyBatches inputPathResolved outputPath verbose filteredEntries
                      (i + BATCH_SIZE) frame' } }.
Next Obligation. unfold BATCH_SIZE. lia. Qed.

(** The batched copier: lines 306 to 347, from [let copiedCount = 0] to
    the summary line. *)
Definition batchedCopy (inputPathResolved outputPath : str)
  (verbose : bool) (filteredEntries : list str) : M (World S) unit :=
  fun w =>
    match copyBatches inputPathResolved outputPath verbose filteredEntries
                      0 (mkFrame w 0) with
    | (frame, Throw e) => (world frame, Throw e)
    | (frame, Return _) =>
        when verbose
          (consoleLog
             (Colored Green
                ("Successfully copied " ++ showNat (copiedCount frame)
                 ++ " out of " ++ showNat (length filteredEntries)
                 ++ " entries")))
          (world frame)
    end.

Definition useNodeImplementation (inputPath outputPath : str)
  (excludePatterns : list str) (verbose : bool) : M (World S) unit :=
  inputIsDirectory <- stat inputPath ;;
  if negb inputIsDirectory then
    let filename := path_basename inputPath in
    let destFilePath := path_resolve2 outputPath filename in
    let relativePath := filename in
    if shouldExclude relativePath excludePatterns then
      when verbose
        (consoleLog
           (Colored Yellow ("Skipping excluded file: " ++ relativePath)))
    else
      copy inputPath destFilePath None ;;;
      when verbose
        (consoleLog (Colored Green ("Copied file: " ++ relativePath)))
  else
    let inputPathResolved := path_resolve inputPath in
    entries <- glob inputPathResolved ;;
    when verbose
      (consoleLog
         (Colored Blue
            ("Found " ++ showNat (length entries)
             ++ " entries to process"))) ;;;
    let filteredEntries :=
      filter (fun entry => negb (shouldExclude entry excludePatterns))
             entries in
    when verbose
      (consoleLog
         (Colored Blue
            ("After exclusion filters: "
             ++ showNat (length filteredEntries) ++ " entries to copy"))) ;;;
    batchedCopy inputPathResolved outputPath verbose filteredEntries.

(** What the [if (isWindows && isDirectoryCopy)] statement of [copyFiles]
    leaves to do: [true] when its [return] was reached. *)
Definition tryRobocopy (inputPath outputPath : str)
  (allExcludePatterns : list str) (verbose : bool) : M (World S) bool :=
  tryCatch
    (useWindowsRobocopy inputPath outputPath allExcludePatterns verbose ;;;
     ret true)
    (fun error =>
       when verbose
         (consoleLog
            (Colored Yellow
               "Robocopy failed, falling back to Node.js implementation.") ;;;
          consoleError (Inspect error)) ;;;
       ret false).

Definition copyFiles (inputPath outputPath : str) (options : CopyOptions)
  : M (World S) unit :=
  let excludePatterns := excludePatterns options in
  let ignoreDefaults := ignoreDefaults options in
  let verbose := verbose options in
  when verbose
    (consoleLog (Colored Blue ("Copying from: " ++ inputPath)) ;;;
     consoleLog (Colored Blue ("Copying to: " ++ outputPath))) ;;;
  tryCatch
    (access inputPath)
    (fun _ =>
       throw (mkError ("Source path does not exist: " ++ inputPath)
                      StatusUndefined)) ;;;
  ensureDir outputPath ;;;
  let allExcludePatterns :=
    if ignoreDefaults then excludePatterns
    else DEFAULT_EXCLUDE_PATTERNS ++ excludePatterns in
  when (verbose && (0 <? length allExcludePatterns)%nat)
    (consoleLog (Colored Yellow "Excluding patterns:") ;;;
     forEach (fun pattern => consoleLog (Colored Yellow ("- " ++ pattern)))
             allExcludePatterns) ;;;
  let isWindows := str_eqb os_platform "win32" in
  isDirectoryCopy <- stat inputPath ;;
  returned <-
    (if isWindows && isDirectoryCopy
     then tryRobocopy inputPath outputPath allExcludePatterns verbose
     else ret false) ;;
  if returned : bool then ret tt
  else useNodeImplementation inputPath outputPath allExcludePatterns verbose.

End Engine.

(* ===================================================================== *)
(** * A scripted host *)
(* ===================================================================== *)

(** How the child process of [execSync] ended. *)
Inductive ChildResult :=
| Exited (code : N)
| SpawnFailed
| KilledBySignal.

(** What [child_process.execSync] does with the end of the child, after
    the documentation of Node.js: it returns when the exit status is zero
    and throws otherwise; the thrown error carries the properties of the
    [spawnSync] result, whose [status] is the exit code, or [null] when
    the child was ended by a signal or could not be started at all. *)
Definition execSyncOutcome (command : str) (c : ChildResult)
  : Completion unit :=
  match c with
  | Exited 0 => Return tt
  | Exited n =>
      Throw (mkError ("Command failed: " ++ command)
                     (StatusNumber (Z.of_N n)))
  | SpawnFailed => Throw (mkError "spawnSync cmd.exe ENOENT" StatusNull)
  | KilledBySignal =>
      Throw (mkError ("Command failed: " ++ command) StatusNull)
  end.

(** A machine whose answers depend on the path alone: which paths are
    directories, which do not exist, which directories cannot be created
    (a regular file is in the way), which files cannot be read, what the
    source tree lists and how the robocopy process ends. *)
Record Script := mkScript {
  platform : str;
  directories : list str;
  absent : list str;
  notCreatable : list str;
  unreadable : list str;
  listing : list str;
  child : ChildResult
}.

Definition mem (p : str) (l : list str) : bool := existsb (str_eqb p) l.

Definition errno (code : str) (syscall path : str) : JsError :=
  mkError (code ++ ", " ++ syscall ++ " '" ++ path ++ "'") StatusUndefined.

(** POSIX [path.join(a, b)], [path.dirname] and [path.basename] on paths
    that are already normal. *)
Definition posixJoin (a b : str) : str := a ++ "/" ++ b.

Definition posixDirname (p : str) : str :=
  join "/" (removelast (split "/" p)).

Definition posixBasename (p : str) : str :=
  last (split "/" p) [].

Definition scriptedHost (sc : Script) : Host unit := {|
  path_resolve := fun p => p;
  path_resolve2 := posixJoin;
  path_join := posixJoin;
  path_dirname := posixDirname;
  path_basename := posixBasename;
  os_platform := platform sc;
  fs_access := fun p s =>
    (s, if mem p (absent sc)
        then Throw (errno "ENOENT: no such file or directory" "access" p)
        else Return tt);
  fs_stat := fun p s =>
    (s, if mem p (absent sc)
        then Throw (errno "ENOENT: no such file or directory" "stat" p)
        else Return (mem p (directories sc)));
  fs_ensureDir := fun p s =>
    (s, if mem p (notCreatable sc)
        then Throw (errno "EEXIST: file already exists" "mkdir" p)
        else Return tt);
  fs_copy := fun src dest _ s =>
    (s, if mem src (unreadable sc)
        then Throw (errno "EACCES: permission denied" "copyfile" src)
        else Return tt);
  fg_all := fun _ s => (s, Return (listing sc));
  execSync := fun command _ s => (s, execSyncOutcome command (child sc))
|}.

Definition emptyWorld : World unit := mkWorld tt [] [] [].

(** [n] entries [prefix0], [prefix1], ... *)
Definition numbered (prefix : str) (n : nat) : list str :=
  map (fun k => prefix ++ showNat k) (seq 0 n).

(** The tree of [blockedScript] as fast-glob lists it, with a hundred and
    one entries: [z.txt] is the only entry of the second batch. *)
Definition blockedEntries : list str :=
  ["a"; "a/b.txt"] ++ numbered "f" 98 ++ ["z.txt"].

(** A Windows machine on which the robocopy command cannot be started;
    the source directory holds one file. *)
Definition spawnFailureScript : Script :=
  mkScript "win32" ["src"] [] [] [] ["x.txt"] SpawnFailed.

(** A machine where nothing fails; the source is the file [in/x.log] or
    the directory [src]. *)
Definition calmScript : Script :=
  mkScript "linux" ["src"] [] [] [] ["x.txt"] (Exited 0).

(** A machine where the source file [gone.txt] has vanished and
    [locked.txt] cannot be read. *)
Definition flakyScript : Script :=
  mkScript "linux" ["src"; "src/sub"] ["src/gone.txt"] []
           ["src/locked.txt"] [] (Exited 0).

(** A machine whose destination already holds a regular file [out/a],
    while the source holds a directory [a] with the file [a/b.txt]. *)
Definition blockedScript : Script :=
  mkScript "linux" ["src"; "src/a"] [] ["out/a"] [] [] (Exited 0).


(* ===================================================================== *)
(** * The account of a batched copy *)
(* ===================================================================== *)

(** Modelled from the spec: the [CopyOutcome] aggregate of section 3, which
    the sources do not declare ([useNodeImplementation] is typed
    [Promise<void>]).  Its fields are the number of entries attempted, the
    number copied without error and the failed entries with their
    messages. *)
Record CopyOutcome := mkOutcome {
  attempted : nat;
  succeeded : nat;
  perEntryErrors : list (str * str)
}.

(** The line that the [catch] block of [copyEntry] writes. *)
Definition failureLine (failure : str * str) : LogLine :=
  Colored Red ("Failed to copy " ++ fst failure ++ ": " ++ snd failure).


(** The paths that a call names. *)
Definition callPaths (c : Call) : list str :=
  match c with
  | CallAccess p | CallStat p | CallEnsureDir p | CallGlob p => [p]
  | CallCopy src dest _ => [src; dest]
  | CallExecSync _ _ => []
  end.

(** Some call of the trace names the path [p]. *)
Definition touched (p : str) (trace : list Call) : bool :=
  existsb (fun c => existsb (str_eqb p) (callPaths c)) trace.

Definition isGlob (c : Call) : bool :=
  match c with CallGlob _ => true | _ => false end.

Definition isCopy (c : Call) : bool :=
  match c with CallCopy _ _ _ => true | _ => false end.

Section Account.
Context {S : Type} `{Host S}.

(** A computation that only writes lines to the standard output. *)
Definition logsOnly (m : M (World S) unit) : Prop :=
  forall w, exists lines,
    m w = (mkWorld (machine w) (stdout w ++ lines) (stderr w) (calls w),
           Return tt).

(** How [copyOne] ends for an entry when its closure is started in
    [frame]: its parent directory is ensured first. *)
Definition copyOneResult (inputPathResolved outputPath : str)
  (entry : str) (frame : Frame S) : Completion unit :=
  let destPath := path_join outputPath entry in
  let w := fst (ensureDir (path_dirname destPath) (world frame)) in
  snd (copyOne (path_join inputPathResolved entry) destPath w).

End Account.

(* ===================================================================== *)
(** * src/index.ts: the action of the command *)
(* ===================================================================== *)

(** The mark that opens the success line; it lies outside the Latin-1
    range and is kept as the bytes that the source file holds. *)
Definition successMark : str :=
  map ascii_of_nat [195; 162; 197; 147; 226; 128; 156].

Section Cli.
Context {S : Type} `{Host S} `{Minimatch}.

(** The statements of [copyFiles] that follow the creation of the
    destination, lines 99 to 120, for the combined patterns. *)
Definition copyFilesRest (inputPath outputPath : str)
  (allExcludePatterns : list str) (verbose : bool) : M (World S) unit :=
  when (verbose && (0 <? length allExcludePatterns)%nat)
    (consoleLog (Colored Yellow "Excluding patterns:") ;;;
     forEach (fun pattern => consoleLog (Colored Yellow ("- " ++ pattern)))
             allExcludePatterns) ;;;
  let isWindows := str_eqb os_platform "win32" in
  isDirectoryCopy <- stat inputPath ;;
  returned <-
    (if isWindows && isDirectoryCopy
     then tryRobocopy inputPath outputPath allExcludePatterns verbose
     else ret false) ;;
  if returned : bool then ret tt
  else useNodeImplementation inputPath outputPath allExcludePatterns verbose.

(** The lines that open a verbose run. *)
Definition openingLines (inputPath outputPath : str) (verbose : bool)
  : list LogLine :=
  if verbose
  then [Colored Blue ("Copying from: " ++ inputPath);
        Colored Blue ("Copying to: " ++ outputPath)]
  else [].

(** The callback given to [program.action]: lines 56 to 72.  [exclude] is
    [options.exclude], absent when no [-x] flag was given; the two flags
    arrive as [!!options.ignoreDefaults] and [!!options.verbose].  The
    result is the argument of [process.exit] when the callback calls it. *)
Definition action (inputPath outputPath : str) (exclude : option (list str))
  (ignoreDefaultsFlag verboseFlag : bool) (w : World S)
  : World S * option nat :=
  let excludePatterns :=
    processExcludePatterns
      (match exclude with Some tokens => tokens | None => [] end) in
  let copyOptions :=
    mkCopyOptions excludePatterns ignoreDefaultsFlag verboseFlag in
  match copyFiles inputPath outputPath copyOptions w with
  | (w', Return _) =>
      (fst (consoleLog
              (Colored Green (successMark ++ " Copy completed successfully."))
              w'),
       None)
  | (w', Throw error) =>
      (fst (consoleError (Colored Red ("Error: " ++ message error)) w'),
       Some 1)
  end.

End Cli.

(* ===================================================================== *)
(** * Predicates on runs *)
(* ===================================================================== *)

Definition isExec (c : Call) : bool :=
  match c with CallExecSync _ _ => true | _ => false end.

Definition notExec (c : Call) : bool := negb (isExec c).

(** The two lines that a verbose copy of a directory writes after the
    listing. *)
Definition listingLines (verbose : bool) (found kept : nat)
  : list LogLine :=
  if verbose
  then [Colored Blue ("Found " ++ showNat found ++ " entries to process");
        Colored Blue ("After exclusion filters: " ++ showNat kept
                      ++ " entries to copy")]
  else [].

(** The calls of a closure of the batched copier: [ensureDir], [stat], and
    [copy] with [preserveTimestamps: true] and [errorOnExist: false]. *)
Definition isEntryCall (c : Call) : bool :=
  match c with
  | CallEnsureDir _ | CallStat _ => true
  | CallCopy _ _ (Some (mkFsCopyOptions true false)) => true
  | _ => false
  end.

(** The trace of [w'] is the trace of [w] followed by calls that satisfy
    [allowed]. *)
Definition extendsWith {S} (allowed : Call -> bool) (w w' : World S) : Prop :=
  exists more,
    calls w' = calls w ++ more /\ forallb allowed more = true.

(** Two worlds that differ at most in what was written to the standard
    output. *)
Definition sameEffects {S} (w1 w2 : World S) : Prop :=
  machine w1 = machine w2 /\ stderr w1 = stderr w2 /\ calls w1 = calls w2.

(** Every call that the computation adds to the trace satisfies
    [allowed]. *)
Definition traces {S A} (allowed : Call -> bool) (m : M (World S) A)
  : Prop :=
  forall w, extendsWith allowed w (fst (m w)).

Definition tracesFrame {S A} (allowed : Call -> bool) (m : M (Frame S) A)
  : Prop :=
  forall frame, extendsWith allowed (world frame) (world (fst (m frame))).

(** Two frames with the same counter whose worlds differ at most in the
    standard output. *)
Definition sameFrames {S} (f1 f2 : Frame S) : Prop :=
  sameEffects (world f1) (world f2) /\ copiedCount f1 = copiedCount f2.

(** What a frame has accounted for: the entries counted as copied and the
    lines on the error stream. *)
Definition tally {S} (frame : Frame S) : nat :=
  copiedCount frame + length (stderr (world frame)).

(** A machine without the source path. *)
Definition missingScript : Script :=
  mkScript "linux" [] ["src"] [] [] [] (Exited 0).

(** A machine on which the destination directory cannot be created. *)
Definition readOnlyScript : Script :=
  mkScript "linux" ["src"] [] ["out"] [] ["x.txt"] (Exited 0).

(** A Windows machine whose robocopy ends with the exit status [code]. *)
Definition windowsScript (code : N) : Script :=
  mkScript "win32" ["src"] [] [] [] ["x.txt"; "y.log"] (Exited code).

(** A machine whose source tree lists a vanished file, an unreadable
    file and a log file among others. *)
Definition flakyTree : Script :=
  mkScript "linux" ["src"; "src/sub"] ["src/gone.txt"] []
           ["src/locked.txt"]
           ["x.txt"; "gone.txt"; "sub"; "locked.txt"; "sub/y.txt"; "z.log"]
           (Exited 0).

(* ===================================================================== *)
(** * Runs on a file system with state *)
(* ===================================================================== *)

Section RunPredicates.
Context {S : Type} `{Host S}.

(** The machine states that follow [s] by one of the calls which the
    closure of [entry] can make: the creation of the parent directory,
    the [stat] of the source, the creation of the destination directory
    and the copy. *)
Definition entrySteps (inputPathResolved outputPath : str) (entry : str)
  (s : S) : list S :=
  let sourcePath := path_join inputPathResolved entry in
  let destPath := path_join outputPath entry in
  [fst (fs_ensureDir (path_dirname destPath) s);
   fst (fs_stat sourcePath s);
   fst (fs_ensureDir destPath s);
   fst (fs_copy sourcePath destPath (Some (mkFsCopyOptions true false)) s)].

(** The machine states that the closures of [entries] can reach from
    [s0], in whatever order their calls are made. *)
Inductive reachable (inputPathResolved outputPath : str)
  (entries : list str) (s0 : S) : S -> Prop :=
| reachable_start : reachable inputPathResolved outputPath entries s0 s0
| reachable_step (s s' : S) (entry : str) :
    reachable inputPathResolved outputPath entries s0 s ->
    In entry entries ->
    In s' (entrySteps inputPathResolved outputPath entry s) ->
    reachable inputPathResolved outputPath entries s0 s'.

(** No closure of [entries] fails to create the parent directory of its
    entry, in any state that the closures can reach from [s0]. *)
Definition parentsCreatableFrom (inputPathResolved outputPath : str)
  (entries : list str) (s0 : S) : Prop :=
  forall entry s,
    In entry entries ->
    reachable inputPathResolved outputPath entries s0 s ->
    snd (fs_ensureDir (path_dirname (path_join outputPath entry)) s)
    = Return tt.

(** [c] is one of the calls that the closure of [entry] makes. *)
Definition isCallOf (inputPathResolved outputPath : str) (entry : str)
  (c : Call) : bool :=
  let sourcePath := path_join inputPathResolved entry in
  let destPath := path_join outputPath entry in
  match c with
  | CallEnsureDir p =>
      str_eqb p (path_dirname destPath) || str_eqb p destPath
  | CallStat p => str_eqb p sourcePath
  | CallCopy src dest (Some (mkFsCopyOptions true false)) =>
      str_eqb src sourcePath && str_eqb dest destPath
  | _ => false
  end.

(** [c] is a call of the closure of one of the entries. *)
Definition isCallOfSome (inputPathResolved outputPath : str)
  (entries : list str) (c : Call) : bool :=
  existsb (fun entry => isCallOf inputPathResolved outputPath entry c)
          entries.


End RunPredicates.

(** A file system with state: the regular files and the directories that
    it holds. *)
Record Disk := mkDisk {
  diskFiles : list str;
  diskDirs : list str
}.

Definition addPath (p : str) (paths : list str) : list str :=
  if mem p paths then paths else p :: paths.

(** A host over [Disk] whose answers depend on the state: a directory
    cannot be created where a regular file is, a path is examined as it is
    at the moment of the call, and a copy creates its destination.
    [listing] is what fast-glob reports for the source tree. *)
Definition diskHost (listing : list str) : Host Disk := {|
  path_resolve := fun p => p;
  path_resolve2 := posixJoin;
  path_join := posixJoin;
  path_dirname := posixDirname;
  path_basename := posixBasename;
  os_platform := "linux";
  fs_access := fun p d =>
    (d, if mem p (diskFiles d) || mem p (diskDirs d)
        then Return tt
        else Throw (errno "ENOENT: no such file or directory" "access" p));
  fs_stat := fun p d =>
    (d, if mem p (diskDirs d) then Return true
        else if mem p (diskFiles d) then Return false
        else Throw (errno "ENOENT: no such file or directory" "stat" p));
  fs_ensureDir := fun p d =>
    if mem p (diskFiles d)
    then (d, Throw (errno "EEXIST: file already exists" "mkdir" p))
    else (mkDisk (diskFiles d) (addPath p (diskDirs d)), Return tt);
  fs_copy := fun src dest _ d =>
    if mem src (diskFiles d)
    then (mkDisk (addPath dest (diskFiles d)) (diskDirs d), Return tt)
    else (d, Throw (errno "ENOENT: no such file or directory" "copyfile" src));
  fg_all := fun _ d => (d, Return listing);
  execSync := fun _ _ d => (d, Return tt)
|}.

(** A source tree with two files and a directory; its listing still names
    [gone.txt], which has vanished. *)
Definition sourceDisk : Disk :=
  mkDisk ["src/x.txt"; "src/sub/y.txt"; "in/x.log"; "in/x.txt"]
         ["src"; "src/sub"; "in"].

Definition sourceListing : list str :=
  ["x.txt"; "gone.txt"; "sub"; "sub/y.txt"].

Definition diskWorld (d : Disk) : World Disk := mkWorld d [] [] [].

(** Evaluates the paths of the goal that are built from literals. *)
Ltac normal_paths :=
  repeat match goal with
         | |- context [@path_join Disk ?host ?a ?b] =>
             let v := eval vm_compute in (@path_join Disk host a b) in
             change (@path_join Disk host a b) with v
         | |- context [@path_dirname Disk ?host ?a] =>
             let v := eval vm_compute in (@path_dirname Disk host a) in
             change (@path_dirname Disk host a) with v
         end.

Unset Implicit Arguments.

(* ===================================================================== *)
(** * Properties of the string operations *)
(* ===================================================================== *)

Example plan_defaults :
  processExcludePatternsForRobocopy
    ["node_modules/**"; "dist/**"; ".DS_Store"; "*.log"; "src/*.ts"; "a/b";
     "tmp"]
  = mkExcludes ["node_modules"; "dist"; "a\b"; "tmp"] [".DS_Store"; "*.log"].
Proof. reflexivity. Qed.

Example string_operations :
  split "," "a,,b" = ["a"; ""; "b"]
  /\ split "," "" = [""]
  /\ join "\" (split "/" "a/b/c") = "a\b\c"
  /\ replaceStarStar "a***b" = "a**b"
  /\ slice "abc/" 0 (-1) = "abc"
  /\ slice "dist/**" 0 (7 - 3) = "dist"
  /\ endsWith "**" "/**" = false
  /\ includes "my.github" ".git" = true
  /\ trim "  a b  " = "a b"
  /\ unique ["b"; "a"; "b"; "c"; "a"] = ["b"; "a"; "c"].
Proof. repeat split; reflexivity. Qed.

Example normalize_test :
  processExcludePatterns ["pattern1,,pattern2"; ","; " "; " p3 , p4"]
  = ["pattern1"; "pattern2"; "p3"; "p4"].
Proof. reflexivity. Qed.

Example specMinimatch_examples :
  specMinimatch "file2.log" "*.log" = true
  /\ specMinimatch "src/file2.log" "*.log" = false
  /\ specMinimatch "dist/bundle.js" "dist/**" = true
  /\ specMinimatch "foo/dist/bundle.js" "dist/**" = false
  /\ specMinimatch ".DS_Store" "*" = true.
Proof. repeat split; reflexivity. Qed.

Lemma str_eqb_eq (a b : str) : str_eqb a b = true <-> a = b.
Proof.
  unfold str_eqb. destruct (list_eq_dec ascii_dec a b); split; congruence.
Qed.

Lemma str_eqb_refl (a : str) : str_eqb a a = true.
Proof. apply str_eqb_eq. reflexivity. Qed.

Lemma replaceChar_idempotent (c d : ascii) (s : str) :
  c <> d -> replaceChar c d (replaceChar c d s) = replaceChar c d s.
Proof.
  intros Hcd. unfold replaceChar. rewrite map_map. apply map_ext.
  intros x. destruct (Ascii.eqb x c) eqn:Hx; [|rewrite Hx; reflexivity].
  destruct (Ascii.eqb d c) eqn:Hd; [|reflexivity].
  apply Ascii.eqb_eq in Hd. congruence.
Qed.

Lemma replaceChar_same (c : ascii) (s : str) : replaceChar c c s = s.
Proof.
  unfold replaceChar. rewrite <- (map_id s) at 2. apply map_ext.
  intros x. destruct (Ascii.eqb x c) eqn:Hx; [|reflexivity].
  apply Ascii.eqb_eq in Hx. congruence.
Qed.

Lemma toSlash_idempotent (s : str) :
  replaceChar "\" "/" (replaceChar "\" "/" s) = replaceChar "\" "/" s.
Proof. apply replaceChar_idempotent. discriminate. Qed.

Lemma endsWith_app (d suf : str) : endsWith (d ++ suf) suf = true.
Proof.
  unfold endsWith. rewrite length_app.
  replace (length d + length suf - length suf) with (length d) by lia.
  rewrite skipn_app, skipn_all, Nat.sub_diag. simpl.
  rewrite str_eqb_refl, andb_true_r. apply Nat.leb_le. lia.
Qed.

Lemma endsWith_split (s suf : str) :
  endsWith s suf = true ->
  s = firstn (length s - length suf) s ++ suf.
Proof.
  unfold endsWith. intros Hs. apply andb_prop in Hs. destruct Hs as [_ Hs].
  apply str_eqb_eq in Hs.
  rewrite <- (firstn_skipn (length s - length suf) s) at 1.
  f_equal. exact Hs.
Qed.

Lemma slice_strip_suffix (d suf : str) :
  slice (d ++ suf) 0
        (Z.of_nat (length (d ++ suf)) - Z.of_nat (length suf)) = d.
Proof.
  unfold slice, relIndex. rewrite length_app. simpl (0 <? 0)%Z. cbv iota.
  replace (Z.of_nat (length d + length suf) - Z.of_nat (length suf))%Z
    with (Z.of_nat (length d)) by lia.
  destruct (Z.of_nat (length d) <? 0)%Z eqn:Hneg; [apply Z.ltb_lt in Hneg; lia|].
  rewrite Nat2Z.id. simpl (Z.to_nat 0). rewrite Nat.min_0_l. simpl skipn.
  rewrite Nat.sub_0_r, Nat.min_l by lia.
  rewrite firstn_app, Nat.sub_diag, firstn_all. simpl. apply app_nil_r.
Qed.

(** ** [[...new Set(arr)]] *)

Lemma uniqueFrom_In (arr seen : list str) (x : str) :
  In x (uniqueFrom seen arr) <-> In x arr /\ ~ In x seen.
Proof.
  revert seen. induction arr as [|y arr IH]; intros seen; simpl.
  - tauto.
  - destruct (existsb (str_eqb y) seen) eqn:Hy.
    + apply existsb_exists in Hy. destruct Hy as [z [Hz Hyz]].
      apply str_eqb_eq in Hyz. subst z. rewrite IH. split.
      * tauto.
      * intros [[->|Hx] Hn]; tauto.
    + assert (Hny : ~ In y seen).
      { intros Hin. rewrite <- Bool.not_true_iff_false in Hy. apply Hy.
        apply existsb_exists. exists y. split; [assumption|apply str_eqb_refl]. }
      simpl. rewrite IH. simpl. split.
      * intros [->|[Hx Hn]]; [tauto|]. split; [tauto|]. tauto.
      * intros [[->|Hx] Hn]; [tauto|].
        destruct (list_eq_dec ascii_dec y x) as [->|Hne]; [tauto|].
        right. split; [assumption|]. intros [Heq|Hin]; tauto.
Qed.

Lemma uniqueFrom_NoDup (arr seen : list str) : NoDup (uniqueFrom seen arr).
Proof.
  revert seen. induction arr as [|y arr IH]; intros seen; simpl.
  - constructor.
  - destruct (existsb (str_eqb y) seen); [apply IH|].
    constructor; [|apply IH].
    rewrite uniqueFrom_In. simpl. tauto.
Qed.

Lemma unique_In (arr : list str) (x : str) : In x (unique arr) <-> In x arr.
Proof. unfold unique. rewrite uniqueFrom_In. simpl. tauto. Qed.

Lemma unique_NoDup (arr : list str) : NoDup (unique arr).
Proof. apply uniqueFrom_NoDup. Qed.

(** ** [trim] *)

Lemma trimStart_no_leading (s : str) :
  leadingWhiteSpace (trimStart s) = false.
Proof.
  induction s as [|c s IH]; simpl; [reflexivity|].
  destruct (isWhiteSpace c) eqn:Hc; [assumption|]. simpl. assumption.
Qed.

Lemma trimEnd_keeps_head (s : str) :
  leadingWhiteSpace s = false -> leadingWhiteSpace (trimEnd s) = false.
Proof.
  destruct s as [|c s]; simpl; [reflexivity|]. intros Hc.
  destruct (trimEnd s); [rewrite Hc|]; simpl; assumption.
Qed.

Lemma leading_app (a b : str) :
  a <> [] -> leadingWhiteSpace (a ++ b) = leadingWhiteSpace a.
Proof. destruct a; [congruence|reflexivity]. Qed.

Lemma trimEnd_no_trailing (s : str) :
  trailingWhiteSpace (trimEnd s) = false.
Proof.
  unfold trailingWhiteSpace.
  induction s as [|c s IH]; simpl; [reflexivity|].
  destruct (trimEnd s) as [|x t] eqn:Ht.
  - destruct (isWhiteSpace c) eqn:Hc; simpl; [reflexivity|assumption].
  - change (rev (c :: x :: t)) with (rev (x :: t) ++ [c]).
    rewrite leading_app; [assumption|].
    simpl. intros Hr. apply app_eq_nil in Hr. destruct Hr; discriminate.
Qed.

Lemma trim_clean (s : str) :
  leadingWhiteSpace (trim s) = false /\ trailingWhiteSpace (trim s) = false.
Proof.
  unfold trim. split.
  - apply trimEnd_keeps_head, trimStart_no_leading.
  - apply trimEnd_no_trailing.
Qed.

(* ===================================================================== *)
(** * The pattern normaliser *)
(* ===================================================================== *)

Lemma fold_pushTrimmed (values patterns : list str) :
  fold_left pushTrimmed values patterns
  = patterns
    ++ filter (fun piece => negb (isEmpty piece)) (map trim values).
Proof.
  revert patterns. induction values as [|v values IH]; intros patterns; simpl.
  - symmetry. apply app_nil_r.
  - rewrite IH. unfold pushTrimmed.
    destruct (negb (isEmpty (trim v))); [|reflexivity].
    rewrite <- app_assoc. reflexivity.
Qed.

Lemma fold_pushOption (options patterns : list str) :
  fold_left pushOption options patterns = patterns ++ normalize_spec options.
Proof.
  revert patterns. induction options as [|o options IH]; intros patterns; simpl.
  - symmetry. apply app_nil_r.
  - rewrite IH. unfold pushOption. rewrite fold_pushTrimmed.
    rewrite <- app_assoc. reflexivity.
Qed.

Lemma processExcludePatterns_spec (raw : list str) :
  processExcludePatterns raw = normalize_spec raw.
Proof.
  unfold processExcludePatterns. destruct raw as [|o raw]; [reflexivity|].
  cbv beta iota delta [length Nat.eqb]. apply fold_pushOption.
Qed.

Lemma normalize_spec_clean (raw : list str) :
  Forall (fun p => isEmpty p = false
                   /\ leadingWhiteSpace p = false
                   /\ trailingWhiteSpace p = false)
         (normalize_spec raw).
Proof.
  apply Forall_forall. intros p Hp. unfold normalize_spec in Hp.
  apply in_flat_map in Hp. destruct Hp as [token [_ Hp]].
  apply filter_In in Hp. destruct Hp as [Hp Hne].
  apply in_map_iff in Hp. destruct Hp as [piece [<- _]].
  split; [|apply trim_clean].
  destruct (isEmpty (trim piece)); [discriminate|reflexivity].
Qed.

(** C7.  [processExcludePatterns] (the normaliser) splits each token on
    commas, trims each piece, drops the pieces that are empty after
    trimming and concatenates the rest in encounter order; no element of
    its output is empty or begins or ends with white space; and the empty
    list of tokens gives the empty list. *)
Theorem processExcludePatterns_normalizes (raw : list str) :
  processExcludePatterns raw = normalize_spec raw
  /\ Forall (fun p => isEmpty p = false
                      /\ leadingWhiteSpace p = false
                      /\ trailingWhiteSpace p = false)
            (processExcludePatterns raw)
  /\ processExcludePatterns [] = [].
Proof.
  split; [apply processExcludePatterns_spec|]. split; [|reflexivity].
  rewrite processExcludePatterns_spec. apply normalize_spec_clean.
Qed.

(* ===================================================================== *)
(** * The robocopy exclusion translator *)
(* ===================================================================== *)

(** What the loop body pushes for one pattern does not depend on what was
    pushed before. *)
Lemma translatePattern_appends (acc : RobocopyExcludes) (p : str) :
  translatePattern acc p
  = mkExcludes
      (dirExcludes acc ++ dirExcludes (translatePattern noExcludes p))
      (fileExcludes acc ++ fileExcludes (translatePattern noExcludes p)).
Proof.
  unfold translatePattern, pushDir, pushFile, noExcludes.
  destruct acc as [ds fs]. cbn [dirExcludes fileExcludes].
  repeat match goal with
         | |- context [if ?b then _ else _] => destruct b
         end;
    cbn [dirExcludes fileExcludes app]; rewrite ?app_nil_r; reflexivity.
Qed.

Lemma fold_translatePattern (ps : list str) (acc : RobocopyExcludes) :
  fold_left translatePattern ps acc
  = mkExcludes
      (dirExcludes acc
       ++ flat_map (fun p => dirExcludes (translatePattern noExcludes p)) ps)
      (fileExcludes acc
       ++ flat_map (fun p => fileExcludes (translatePattern noExcludes p)) ps).
Proof.
  revert acc. induction ps as [|p ps IH]; intros acc; simpl.
  - rewrite !app_nil_r. destruct acc; reflexivity.
  - rewrite IH. rewrite (translatePattern_appends acc p).
    cbn [dirExcludes fileExcludes]. rewrite <- !app_assoc. reflexivity.
Qed.

Lemma pushCommon_files (ps : list str) (rules : list (str * str))
  (acc : RobocopyExcludes) :
  fileExcludes (fold_left (pushCommon ps) rules acc) = fileExcludes acc.
Proof.
  revert acc. induction rules as [|r rules IH]; intros acc; simpl;
    [reflexivity|].
  rewrite IH. unfold pushCommon.
  destruct (some _ ps); reflexivity.
Qed.

Lemma pushCommon_dirs (ps : list str) (rules : list (str * str))
  (acc : RobocopyExcludes) :
  dirExcludes (fold_left (pushCommon ps) rules acc)
  = dirExcludes acc
    ++ map snd
         (filter (fun rule => some (fun p => includes p (fst rule)) ps)
                 rules).
Proof.
  revert acc. induction rules as [|r rules IH]; intros acc; simpl.
  - symmetry. apply app_nil_r.
  - rewrite IH. unfold pushCommon.
    destruct (some _ ps); cbn [dirExcludes pushDir map]; [|reflexivity].
    rewrite <- app_assoc. reflexivity.
Qed.

(** The translator as one expression: the pushes of the loop, then the
    pushes of the four common patterns, made unique. *)
Lemma processExcludePatternsForRobocopy_eq (ps : list str) :
  processExcludePatternsForRobocopy ps
  = mkExcludes
      (unique
         (flat_map (fun p => dirExcludes (translatePattern noExcludes p)) ps
          ++ map snd
               (filter (fun rule => some (fun p => includes p (fst rule)) ps)
                       commonPatterns)))
      (unique
         (flat_map (fun p => fileExcludes (translatePattern noExcludes p))
                   ps)).
Proof.
  unfold processExcludePatternsForRobocopy.
  rewrite pushCommon_dirs, pushCommon_files, fold_translatePattern.
  reflexivity.
Qed.

(** C5.  For every pattern that ends in [/**] once its backslashes are
    written as slashes, the translator adds the pattern without that
    suffix to [dirExcludes]; in particular the plan of
    [["node_modules/**"]] has ["node_modules"] among its [dirExcludes]. *)
Theorem globstar_suffix_dirExcludes :
  (forall (ps : list str) (p d : str),
      In p ps ->
      replaceChar "\" "/" p = d ++ "/**" ->
      In d (dirExcludes (processExcludePatternsForRobocopy ps)))
  /\ In "node_modules"
        (dirExcludes (processExcludePatternsForRobocopy ["node_modules/**"])).
Proof.
  split.
  - intros ps p d Hp Hd. rewrite processExcludePatternsForRobocopy_eq.
    cbn [dirExcludes]. apply unique_In. apply in_or_app. left.
    apply in_flat_map. exists p. split; [assumption|].
    unfold translatePattern. rewrite Hd, endsWith_app.
    cbn [dirExcludes pushDir noExcludes app].
    left. apply (slice_strip_suffix d "/**").
  - vm_compute. left. reflexivity.
Qed.

Lemma globstar_suffix_dirExcludes_witness :
  In "a\b/**" ["*.log"; "a\b/**"]
  /\ replaceChar "\" "/" "a\b/**" = "a/b" ++ "/**"
  /\ In "a/b"
        (dirExcludes (processExcludePatternsForRobocopy ["*.log"; "a\b/**"])).
Proof.
  assert (Hin : In "a\b/**" ["*.log"; "a\b/**"]) by (simpl; tauto).
  assert (Heq : replaceChar "\" "/" "a\b/**" = "a/b" ++ "/**")
    by reflexivity.
  split; [exact Hin|]. split; [exact Heq|].
  exact (proj1 globstar_suffix_dirExcludes
               ["*.log"; "a\b/**"] "a\b/**" "a/b" Hin Heq).
Defined.

Lemma common_rule_forced (ps : list str) (rule : str * str) :
  In rule commonPatterns ->
  some (fun p => includes p (fst rule)) ps = true ->
  In (snd rule) (dirExcludes (processExcludePatternsForRobocopy ps)).
Proof.
  intros Hrule Hsome. rewrite processExcludePatternsForRobocopy_eq.
  cbn [dirExcludes]. apply unique_In. apply in_or_app. right.
  apply in_map. apply filter_In. split; assumption.
Qed.

(** C6.  If some pattern contains [node_modules], [dist/], [build/] or
    [.git], the directory name [node_modules], [dist], [build] or [.git]
    is among the [dirExcludes] of the plan, however the loop classified
    the pattern; and neither list of the plan has a duplicate. *)
Theorem common_patterns_forced (ps : list str) :
  (some (fun p => includes p "node_modules") ps = true ->
   In "node_modules" (dirExcludes (processExcludePatternsForRobocopy ps)))
  /\ (some (fun p => includes p "dist/") ps = true ->
      In "dist" (dirExcludes (processExcludePatternsForRobocopy ps)))
  /\ (some (fun p => includes p "build/") ps = true ->
      In "build" (dirExcludes (processExcludePatternsForRobocopy ps)))
  /\ (some (fun p => includes p ".git") ps = true ->
      In ".git" (dirExcludes (processExcludePatternsForRobocopy ps)))
  /\ NoDup (dirExcludes (processExcludePatternsForRobocopy ps))
  /\ NoDup (fileExcludes (processExcludePatternsForRobocopy ps)).
Proof.
  repeat split.
  - apply (common_rule_forced ps ("node_modules", "node_modules")).
    simpl; tauto.
  - apply (common_rule_forced ps ("dist/", "dist")). simpl; tauto.
  - apply (common_rule_forced ps ("build/", "build")). simpl; tauto.
  - apply (common_rule_forced ps (".git", ".git")). simpl; tauto.
  - apply unique_NoDup.
  - apply unique_NoDup.
Qed.

(** Patterns that the loop classifies as files or drops: only the common
    patterns bring the four directories in. *)
Lemma common_patterns_forced_witness :
  let ps := ["my_node_modules.txt"; "dist/*.js"; "x/build/*"; "*.gitignore";
             "*.gitignore"] in
  (some (fun p => includes p "node_modules") ps = true
   /\ some (fun p => includes p "dist/") ps = true
   /\ some (fun p => includes p "build/") ps = true
   /\ some (fun p => includes p ".git") ps = true)
  /\ (In "node_modules" (dirExcludes (processExcludePatternsForRobocopy ps))
      /\ In "dist" (dirExcludes (processExcludePatternsForRobocopy ps))
      /\ In "build" (dirExcludes (processExcludePatternsForRobocopy ps))
      /\ In ".git" (dirExcludes (processExcludePatternsForRobocopy ps)))
  /\ fold_left translatePattern ps noExcludes
     = mkExcludes [] ["my_node_modules.txt"; "*.gitignore"; "*.gitignore"].
Proof.
  intros ps.
  destruct (common_patterns_forced ps) as [H1 [H2 [H3 [H4 _]]]].
  split; [repeat split; reflexivity|].
  split; [|reflexivity].
  repeat split; [apply H1|apply H2|apply H3|apply H4]; reflexivity.
Defined.

Lemma some_without (f : str -> bool) (before after : list str) (p : str) :
  f p = false -> some f (before ++ p :: after) = some f (before ++ after).
Proof.
  intros Hp. unfold some. rewrite !existsb_app. simpl. rewrite Hp.
  reflexivity.
Qed.

(** C10.  A pattern that, with its backslashes written as slashes,
    contains a slash, does not end in [/**] and has a star in its last
    segment, adds nothing in the loop: the plan of the pattern alone has
    no [fileExcludes], its [dirExcludes] come from the common patterns
    only, and when the pattern contains none of the four substrings the
    plan is the one computed without it. *)
Theorem wildcard_subpath_dropped (p : str) :
  let normalizedPattern := replaceChar "\" "/" p in
  let parts := split "/" normalizedPattern in
  includes normalizedPattern "/" = true ->
  endsWith normalizedPattern "/**" = false ->
  includes (nth (length parts - 1) parts []) "*" = true ->
  (forall acc, translatePattern acc p = acc)
  /\ fileExcludes (processExcludePatternsForRobocopy [p]) = []
  /\ (forall d,
         In d (dirExcludes (processExcludePatternsForRobocopy [p])) ->
         exists key, In (key, d) commonPatterns /\ includes p key = true)
  /\ (Forall (fun rule => includes p (fst rule) = false) commonPatterns ->
      dirExcludes (processExcludePatternsForRobocopy [p]) = []
      /\ forall before after,
           processExcludePatternsForRobocopy (before ++ p :: after)
           = processExcludePatternsForRobocopy (before ++ after)).
Proof.
  intros normalizedPattern parts Hslash Hends Hstar.
  assert (Hdrop : forall acc, translatePattern acc p = acc).
  { intros acc. unfold translatePattern.
    fold normalizedPattern. rewrite Hends, Hslash. fold parts.
    rewrite Hstar. reflexivity. }
  split; [exact Hdrop|].
  split.
  { rewrite processExcludePatternsForRobocopy_eq. cbn [fileExcludes flat_map].
    rewrite Hdrop. reflexivity. }
  split.
  { intros d. rewrite processExcludePatternsForRobocopy_eq.
    cbn [dirExcludes flat_map]. rewrite Hdrop. cbn [dirExcludes noExcludes app].
    rewrite unique_In, in_map_iff. intros [[key d'] [Hd Hin]].
    simpl in Hd. subst d'. apply filter_In in Hin. destruct Hin as [Hin Hkey].
    exists key. split; [assumption|].
    cbn [some existsb fst] in Hkey. rewrite orb_false_r in Hkey. exact Hkey. }
  intros Hnone. rewrite Forall_forall in Hnone.
  assert (Hfilter : forall before after,
             filter (fun rule => some (fun q => includes q (fst rule))
                                      (before ++ p :: after)) commonPatterns
             = filter (fun rule => some (fun q => includes q (fst rule))
                                        (before ++ after)) commonPatterns).
  { intros before after. apply filter_ext_in. intros rule Hrule.
    apply some_without. apply Hnone. assumption. }
  split.
  - rewrite processExcludePatternsForRobocopy_eq.
    cbn [dirExcludes flat_map]. rewrite Hdrop. cbn [dirExcludes noExcludes app].
    pose proof (Hfilter [] []) as Hnil. cbn [app] in Hnil.
    rewrite Hnil. reflexivity.
  - intros before after. rewrite !processExcludePatternsForRobocopy_eq.
    rewrite !flat_map_app. cbn [flat_map]. rewrite Hdrop.
    cbn [dirExcludes fileExcludes noExcludes app]. rewrite Hfilter.
    reflexivity.
Qed.

Lemma wildcard_subpath_dropped_witness :
  (includes (replaceChar "\" "/" "src/*.ts") "/" = true
   /\ endsWith (replaceChar "\" "/" "src/*.ts") "/**" = false
   /\ includes (nth (length (split "/" (replaceChar "\" "/" "src/*.ts")) - 1)
                    (split "/" (replaceChar "\" "/" "src/*.ts")) []) "*"
      = true
   /\ Forall (fun rule => includes "src/*.ts" (fst rule) = false)
             commonPatterns)
  /\ fileExcludes (processExcludePatternsForRobocopy ["src/*.ts"]) = []
  /\ dirExcludes (processExcludePatternsForRobocopy ["src/*.ts"]) = []
  /\ processExcludePatternsForRobocopy (["*.log"] ++ "src/*.ts" :: ["tmp"])
     = processExcludePatternsForRobocopy (["*.log"] ++ ["tmp"]).
Proof.
  assert (H1 : includes (replaceChar "\" "/" "src/*.ts") "/" = true)
    by reflexivity.
  assert (H2 : endsWith (replaceChar "\" "/" "src/*.ts") "/**" = false)
    by reflexivity.
  assert (H3 : includes
                 (nth (length (split "/" (replaceChar "\" "/" "src/*.ts")) - 1)
                      (split "/" (replaceChar "\" "/" "src/*.ts")) []) "*"
               = true) by reflexivity.
  assert (H4 : Forall (fun rule => includes "src/*.ts" (fst rule) = false)
                      commonPatterns)
    by (repeat constructor).
  destruct (wildcard_subpath_dropped "src/*.ts" H1 H2 H3)
    as [_ [Hfiles [_ Hrest]]].
  destruct (Hrest H4) as [Hdirs Hplan].
  split; [repeat split; assumption|].
  split; [exact Hfiles|]. split; [exact Hdirs|apply Hplan].
Defined.

(* ===================================================================== *)
(** * The path matcher *)
(* ===================================================================== *)

Lemma some_ext {A} (f g : A -> bool) (arr : list A) :
  (forall x, f x = g x) -> some f arr = some g arr.
Proof.
  intros Hfg. unfold some. induction arr as [|x arr IH]; simpl;
    [reflexivity|]. rewrite Hfg, IH. reflexivity.
Qed.

Lemma some_map {A B} (f : B -> bool) (g : A -> B) (arr : list A) :
  some f (map g arr) = some (fun x => f (g x)) arr.
Proof.
  unfold some. induction arr as [|x arr IH]; simpl; [reflexivity|].
  rewrite IH. reflexivity.
Qed.

(** The matcher sees the path and the patterns only through their forms
    with slashes. *)
Lemma shouldExclude_normal_form `{Minimatch} (filePath : str)
  (patterns : list str) :
  shouldExclude filePath patterns
  = if (length patterns =? 0)%nat then false
    else some (minimatch (replaceChar "\" "/" filePath))
              (map (replaceChar "\" "/") patterns).
Proof.
  unfold shouldExclude. destruct (length patterns =? 0)%nat; [reflexivity|].
  rewrite some_map. reflexivity.
Qed.

(** C9.  [shouldExclude] gives the same answer when every backslash of
    the path, of the patterns, or of both is replaced by a slash, whatever
    the glob matcher is. *)
Theorem shouldExclude_separator_invariant `{Minimatch} (filePath : str)
  (patterns : list str) :
  shouldExclude (replaceChar "\" "/" filePath) patterns
  = shouldExclude filePath patterns
  /\ shouldExclude filePath (map (replaceChar "\" "/") patterns)
     = shouldExclude filePath patterns
  /\ shouldExclude (replaceChar "\" "/" filePath)
                   (map (replaceChar "\" "/") patterns)
     = shouldExclude filePath patterns.
Proof.
  rewrite !shouldExclude_normal_form. rewrite !length_map, !map_map.
  rewrite toSlash_idempotent.
  rewrite (map_ext _ _ toSlash_idempotent patterns).
  repeat split.
Qed.

(** One pattern of a set may keep its backslashes while another loses
    them: the answer depends on the forms with slashes only. *)
Lemma shouldExclude_same_normal_forms `{Minimatch} (path path' : str)
  (patterns patterns' : list str) :
  replaceChar "\" "/" path' = replaceChar "\" "/" path ->
  map (replaceChar "\" "/") patterns' = map (replaceChar "\" "/") patterns ->
  shouldExclude path' patterns' = shouldExclude path patterns.
Proof.
  intros Hpath Hpatterns. rewrite !shouldExclude_normal_form.
  rewrite Hpath, Hpatterns.
  rewrite <- (length_map (replaceChar "\" "/") patterns'), Hpatterns.
  rewrite length_map. reflexivity.
Qed.

Lemma globstar_matches_all (path : str) : globMatch [GlobStar] path = true.
Proof.
  induction path as [|c path IH]; [reflexivity|].
  simpl in *. exact IH.
Qed.

(** C3.  With the glob semantics of the specification, dot matching on,
    [shouldExclude x ["**"]] is true for every non-empty path [x]: no
    character, a leading dot included, stops the double star. *)
Theorem globstar_excludes_every_path (x : str) :
  x <> [] ->
  @shouldExclude specMinimatch x ["**"] = true.
Proof.
  intros _. unfold shouldExclude, some, specMinimatch, minimatch.
  cbn [length Nat.eqb existsb globTokens].
  rewrite globstar_matches_all. reflexivity.
Qed.

Lemma globstar_excludes_every_path_witness :
  ".git/.config" <> []
  /\ @shouldExclude specMinimatch ".git/.config" ["**"] = true.
Proof.
  assert (Hne : ".git/.config" <> []) by discriminate.
  split; [exact Hne|].
  exact (globstar_excludes_every_path ".git/.config" Hne).
Defined.

(* ===================================================================== *)
(** * The effects of the host calls and of the console *)
(* ===================================================================== *)

Section EffectFacts.
Context {S : Type} `{Host S}.

(** A host call adds itself to the trace and leaves the console alone. *)
Lemma hostCall_effect {A} (c : Call) (op : S -> S * Completion A)
  (w : World S) :
  hostCall c op w
  = (mkWorld (fst (op (machine w))) (stdout w) (stderr w) (calls w ++ [c]),
     snd (op (machine w))).
Proof. unfold hostCall. destruct (op (machine w)); reflexivity. Qed.

Lemma logsOnly_ret : @logsOnly S (ret tt).
Proof.
  intros w. exists []. unfold ret. rewrite app_nil_r. destruct w; reflexivity.
Qed.

Lemma logsOnly_consoleLog (l : LogLine) : @logsOnly S (consoleLog l).
Proof. intros w. exists [l]. reflexivity. Qed.

Lemma logsOnly_seq (m k : M (World S) unit) :
  @logsOnly S m -> @logsOnly S k -> @logsOnly S (m ;;; k).
Proof.
  intros Hm Hk w. destruct (Hm w) as [l1 H1].
  destruct (Hk (mkWorld (machine w) (stdout w ++ l1) (stderr w) (calls w)))
    as [l2 H2].
  exists (l1 ++ l2). unfold bind. rewrite H1, H2. simpl.
  rewrite app_assoc. reflexivity.
Qed.

Lemma logsOnly_when (b : bool) (m : M (World S) unit) :
  @logsOnly S m -> @logsOnly S (when b m).
Proof. intros Hm. destruct b; [exact Hm|apply logsOnly_ret]. Qed.

Lemma logsOnly_forEach {A} (f : A -> M (World S) unit) (arr : list A) :
  (forall x, @logsOnly S (f x)) -> @logsOnly S (forEach f arr).
Proof.
  intros Hf. induction arr as [|x arr IH]; simpl.
  - apply logsOnly_ret.
  - apply logsOnly_seq; [apply Hf|exact IH].
Qed.

End EffectFacts.

Create HintDb logs.
#[local] Hint Resolve logsOnly_ret logsOnly_consoleLog logsOnly_seq
  logsOnly_when logsOnly_forEach : logs.

(* ===================================================================== *)
(** * The copy orchestrator *)
(* ===================================================================== *)

Section Orchestrator.
Context {S : Type} `{Host S} `{Minimatch}.

(** What [useWindowsRobocopy] does: it may write lines when verbose,
    runs the command once, and returns when [execSync] returns or when
    the [status] of the thrown error passes the test
    [exitCode !== undefined && exitCode <= 7]; otherwise it throws the
    same error again. *)
Lemma useWindowsRobocopy_outcome (inputPath outputPath : str)
  (patterns : list str) (verbose : bool) (w : World S) :
  let command :=
    robocopyCommand (path_resolve inputPath) (path_resolve outputPath)
                    (processExcludePatternsForRobocopy patterns) in
  let stdio := if verbose then Inherit else Ignore in
  exists lines,
    (verbose = false -> lines = [])
    /\ useWindowsRobocopy inputPath outputPath patterns verbose w
       = (mkWorld (fst (execSync command stdio (machine w)))
                  (stdout w ++ lines) (stderr w)
                  (calls w ++ [CallExecSync command stdio]),
          match snd (execSync command stdio (machine w)) with
          | Return _ => Return tt
          | Throw e =>
              if notUndefined (status e) && lessOrEqual (status e) 7
              then Return tt
              else Throw e
          end).
Proof.
  intros command stdio. unfold useWindowsRobocopy.
  fold command. fold stdio.
  set (announce := when verbose _).
  assert (Hlogs : @logsOnly S announce).
  { unfold announce. auto 10 with logs. }
  assert (Hquiet : verbose = false -> announce = ret tt).
  { intros ->. reflexivity. }
  destruct verbose.
  - destruct (Hlogs w) as [lines Hlines]. exists lines.
    split; [discriminate|].
    unfold bind. rewrite Hlines. unfold tryCatch, exec.
    rewrite hostCall_effect. cbn [machine stdout stderr calls].
    destruct (execSync command stdio (machine w)) as [s' [[]|e]];
      cbn [fst snd]; [reflexivity|].
    destruct (notUndefined (status e) && lessOrEqual (status e) 7);
      reflexivity.
  - exists []. split; [reflexivity|].
    rewrite (Hquiet eq_refl). unfold bind, ret, tryCatch, exec.
    rewrite hostCall_effect. rewrite app_nil_r.
    destruct (execSync command stdio (machine w)) as [s' [[]|e]];
      cbn [fst snd]; [reflexivity|].
    destruct (notUndefined (status e) && lessOrEqual (status e) 7);
      reflexivity.
Qed.

(** The test on the thrown status, case by case: a number passes when
    it is at most seven, [null] passes, [undefined] does not. *)
Lemma status_test (v : JsStatus) :
  notUndefined v && lessOrEqual v 7
  = match v with
    | StatusUndefined => false
    | StatusNull => true
    | StatusNumber n => (n <=? 7)%Z
    end.
Proof. destruct v; reflexivity. Qed.

(** The [try] around [useWindowsRobocopy] in [copyFiles] never throws:
    it reports whether robocopy returned, and when it did not and the run
    is not verbose it writes nothing. *)
Lemma tryRobocopy_outcome (inputPath outputPath : str)
  (patterns : list str) (verbose : bool) (w : World S) :
  match useWindowsRobocopy inputPath outputPath patterns verbose w with
  | (w', Return _) =>
      tryRobocopy inputPath outputPath patterns verbose w
      = (w', Return true)
  | (w', Throw e) =>
      tryRobocopy inputPath outputPath patterns verbose w
      = (if verbose
         then mkWorld (machine w')
                (stdout w'
                 ++ [Colored Yellow
                       "Robocopy failed, falling back to Node.js implementation."])
                (stderr w' ++ [Inspect e]) (calls w')
         else w',
         Return false)
  end.
Proof.
  unfold tryRobocopy, tryCatch, bind.
  destruct (useWindowsRobocopy inputPath outputPath patterns verbose w)
    as [w' [[]|e]]; [reflexivity|].
  destruct verbose; [reflexivity|]. destruct w'; reflexivity.
Qed.

(** A quiet copy of a directory on Windows, once the source is
    accessible and the destination exists: the run ends with robocopy
    when the command returns or the status test passes, and goes on with
    [useNodeImplementation], silently, when it does not. *)
Lemma copyFiles_windows_directory (inputPath outputPath : str)
  (patterns : list str) (skipDefaults : bool) (w : World S)
  (s1 s2 s3 : S) :
  os_platform = "win32" ->
  fs_access inputPath (machine w) = (s1, Return tt) ->
  fs_ensureDir outputPath s1 = (s2, Return tt) ->
  fs_stat inputPath s2 = (s3, Return true) ->
  let all :=
    if skipDefaults then patterns
    else DEFAULT_EXCLUDE_PATTERNS ++ patterns in
  let command :=
    robocopyCommand (path_resolve inputPath) (path_resolve outputPath)
                    (processExcludePatternsForRobocopy all) in
  let w4 :=
    mkWorld (fst (execSync command Ignore s3)) (stdout w) (stderr w)
            (calls w ++ [CallAccess inputPath; CallEnsureDir outputPath;
                         CallStat inputPath; CallExecSync command Ignore]) in
  copyFiles inputPath outputPath
            (mkCopyOptions patterns skipDefaults false) w
  = match snd (execSync command Ignore s3) with
    | Return _ => (w4, Return tt)
    | Throw e =>
        if notUndefined (status e) && lessOrEqual (status e) 7
        then (w4, Return tt)
        else useNodeImplementation inputPath outputPath all false w4
    end.
Proof.
  intros Hwin Haccess Hensure Hstat all command w4.
  unfold copyFiles.
  cbn [excludePatterns ignoreDefaults verbose when andb].
  fold all. rewrite Hwin.
  unfold bind at 1. unfold ret at 1.
  unfold bind at 1. unfold tryCatch at 1. unfold access.
  rewrite hostCall_effect, Haccess. cbn [fst snd].
  unfold bind at 1. unfold ensureDir at 1.
  rewrite hostCall_effect. cbn [machine stdout stderr calls].
  rewrite Hensure. cbn [fst snd].
  unfold bind at 1. unfold ret at 1.
  unfold bind at 1. unfold stat at 1.
  rewrite hostCall_effect. cbn [machine stdout stderr calls].
  rewrite Hstat. cbn [fst snd].
  change (str_eqb "win32" "win32" && true) with true. cbv iota.
  unfold bind at 1. rewrite <- !app_assoc. cbn [app].
  match goal with
  | |- context [tryRobocopy ?i ?o ?p ?v ?w0] =>
      pose proof (tryRobocopy_outcome i o p v w0) as Htry;
      destruct (useWindowsRobocopy_outcome i o p v w0)
        as [lines [Hlines Hrobo]]
  end.
  rewrite (Hlines eq_refl) in Hrobo.
  cbn [machine stdout stderr calls] in Hrobo.
  rewrite app_nil_r, <- !app_assoc in Hrobo. cbn [app] in Hrobo.
  fold command in Hrobo. fold w4 in Hrobo.
  rewrite Hrobo in Htry.
  destruct (snd (execSync command Ignore s3)) as [[]|e].
  - rewrite Htry. reflexivity.
  - destruct (notUndefined (status e) && lessOrEqual (status e) 7);
      rewrite Htry; reflexivity.
Qed.

(** The same run when [execSync] throws an error whose [status] is
    [null]: the error is taken for a success, nothing falls back. *)
Lemma copyFiles_null_status (inputPath outputPath : str)
  (patterns : list str) (skipDefaults : bool) (w : World S)
  (s1 s2 s3 : S) (e : JsError) :
  os_platform = "win32" ->
  fs_access inputPath (machine w) = (s1, Return tt) ->
  fs_ensureDir outputPath s1 = (s2, Return tt) ->
  fs_stat inputPath s2 = (s3, Return true) ->
  let all :=
    if skipDefaults then patterns
    else DEFAULT_EXCLUDE_PATTERNS ++ patterns in
  let command :=
    robocopyCommand (path_resolve inputPath) (path_resolve outputPath)
                    (processExcludePatternsForRobocopy all) in
  snd (execSync command Ignore s3) = Throw e ->
  status e = StatusNull ->
  snd (copyFiles inputPath outputPath
                 (mkCopyOptions patterns skipDefaults false) w)
  = Return tt
  /\ calls (fst (copyFiles inputPath outputPath
                           (mkCopyOptions patterns skipDefaults false) w))
     = calls w ++ [CallAccess inputPath; CallEnsureDir outputPath;
                   CallStat inputPath; CallExecSync command Ignore].
Proof.
  intros Hwin Haccess Hensure Hstat all command Hthrow Hnull.
  rewrite (copyFiles_windows_directory inputPath outputPath patterns
             skipDefaults w s1 s2 s3 Hwin Haccess Hensure Hstat).
  fold all. fold command. rewrite Hthrow, Hnull. split; reflexivity.
Qed.

(** X10.  A quiet copy of a directory on Windows whose robocopy command
    ends with the exit status [code], which is not zero: up to seven the
    run ends there as a success, after the four calls [access],
    [ensureDir], [stat] and [execSync]; from eight on the error is
    swallowed without a line on the console and [useNodeImplementation]
    takes over. *)
Lemma copyFiles_exit_status (inputPath outputPath : str)
  (patterns : list str) (skipDefaults : bool) (w : World S)
  (s1 s2 s3 : S) (e : JsError) (code : N) :
  os_platform = "win32" ->
  fs_access inputPath (machine w) = (s1, Return tt) ->
  fs_ensureDir outputPath s1 = (s2, Return tt) ->
  fs_stat inputPath s2 = (s3, Return true) ->
  let all :=
    if skipDefaults then patterns
    else DEFAULT_EXCLUDE_PATTERNS ++ patterns in
  let command :=
    robocopyCommand (path_resolve inputPath) (path_resolve outputPath)
                    (processExcludePatternsForRobocopy all) in
  let w4 :=
    mkWorld (fst (execSync command Ignore s3)) (stdout w) (stderr w)
            (calls w ++ [CallAccess inputPath; CallEnsureDir outputPath;
                         CallStat inputPath; CallExecSync command Ignore]) in
  snd (execSync command Ignore s3) = Throw e ->
  status e = StatusNumber (Z.of_N code) ->
  copyFiles inputPath outputPath
            (mkCopyOptions patterns skipDefaults false) w
  = if (code <=? 7)%N then (w4, Return tt)
    else useNodeImplementation inputPath outputPath all false w4.
Proof.
  intros Hwin Haccess Hensure Hstat all command w4 Hthrow Hcode.
  rewrite (copyFiles_windows_directory inputPath outputPath patterns
             skipDefaults w s1 s2 s3 Hwin Haccess Hensure Hstat).
  fold all. fold command. fold w4. rewrite Hthrow, Hcode, status_test.
  destruct (code <=? 7)%N eqn:Hle.
  - apply N.leb_le in Hle.
    replace (Z.of_N code <=? 7)%Z with true; [reflexivity|].
    symmetry. apply Z.leb_le. lia.
  - apply N.leb_gt in Hle.
    replace (Z.of_N code <=? 7)%Z with false; [reflexivity|].
    symmetry. apply Z.leb_gt. lia.
Qed.

(** An exit status is a natural number: the test passes for the
    statuses up to seven and for no other. *)
Lemma exit_status_test (code : N) :
  notUndefined (StatusNumber (Z.of_N code))
  && lessOrEqual (StatusNumber (Z.of_N code)) 7 = true
  <-> (code <= 7)%N.
Proof.
  rewrite status_test. rewrite Z.leb_le. lia.
Qed.

(** C8 (amended).  When [inputPath] is a single file, the matcher is
    asked about its base name only.  If the base name is excluded the run
    ends without an error after the [stat] call alone: nothing is copied,
    and the run returns no value ([undefined], not an outcome).  Otherwise
    the one further call copies the file to
    [path.resolve(outputPath, basename)], and the run ends as that copy
    ends: with no value if the copy succeeds, with its error if not. *)
Theorem single_file_copy (inputPath outputPath : str)
  (patterns : list str) (verbose : bool) (w : World S) (s1 : S) :
  fs_stat inputPath (machine w) = (s1, Return false) ->
  let base := path_basename inputPath in
  let dest := path_resolve2 outputPath base in
  (shouldExclude base patterns = true ->
   useNodeImplementation inputPath outputPath patterns verbose w
   = (mkWorld s1
        (stdout w
         ++ (if verbose
             then [Colored Yellow ("Skipping excluded file: " ++ base)]
             else []))
        (stderr w) (calls w ++ [CallStat inputPath]),
      Return tt))
  /\ (shouldExclude base patterns = false ->
      exists w2,
        useNodeImplementation inputPath outputPath patterns verbose w
        = (w2, snd (fs_copy inputPath dest None s1))
        /\ machine w2 = fst (fs_copy inputPath dest None s1)
        /\ calls w2
           = calls w ++ [CallStat inputPath; CallCopy inputPath dest None]
        /\ stderr w2 = stderr w).
Proof.
  intros Hstat base dest.
  assert (Hrun :
    useNodeImplementation inputPath outputPath patterns verbose w
    = (if shouldExclude base patterns
       then when verbose
              (consoleLog
                 (Colored Yellow ("Skipping excluded file: " ++ base)))
       else copy inputPath dest None ;;;
            when verbose
              (consoleLog (Colored Green ("Copied file: " ++ base))))
        (mkWorld s1 (stdout w) (stderr w) (calls w ++ [CallStat inputPath]))).
  { unfold useNodeImplementation. unfold bind at 1. unfold stat.
    rewrite hostCall_effect, Hstat. reflexivity. }
  rewrite Hrun. split; intros Hexcl; rewrite Hexcl.
  - destruct verbose; cbn [when]; unfold consoleLog, ret;
      cbn [machine stdout stderr calls]; rewrite ?app_nil_r; reflexivity.
  - unfold bind, copy. rewrite hostCall_effect.
    cbn [machine stdout stderr calls].
    destruct (fs_copy inputPath dest None s1) as [s2 [[]|e]];
      cbn [fst snd].
    + destruct verbose; cbn [when]; unfold consoleLog, ret;
        cbn [machine stdout stderr calls];
        eexists; (split; [reflexivity|]);
        cbn [machine stdout stderr calls]; rewrite <- app_assoc;
        repeat split.
    + eexists. split; [reflexivity|].
      cbn [machine stdout stderr calls]. rewrite <- app_assoc.
      repeat split.
Qed.

End Orchestrator.

Lemma single_file_copy_witness :
  let host := scriptedHost calmScript in
  (@fs_stat unit host "in/x.log" (machine emptyWorld) = (tt, Return false)
   /\ @shouldExclude specMinimatch (@path_basename unit host "in/x.log")
                     DEFAULT_EXCLUDE_PATTERNS = true
   /\ @useNodeImplementation unit host specMinimatch "in/x.log" "out"
        DEFAULT_EXCLUDE_PATTERNS false emptyWorld
      = (mkWorld tt [] [] [CallStat "in/x.log"], Return tt))
  /\ (@fs_stat unit host "in/x.txt" (machine emptyWorld) = (tt, Return false)
      /\ @shouldExclude specMinimatch (@path_basename unit host "in/x.txt")
                        DEFAULT_EXCLUDE_PATTERNS = false
      /\ exists w2,
           @useNodeImplementation unit host specMinimatch "in/x.txt" "out"
             DEFAULT_EXCLUDE_PATTERNS false emptyWorld
           = (w2, Return tt)
           /\ calls w2
              = [CallStat "in/x.txt"; CallCopy "in/x.txt" "out/x.txt" None]).
Proof.
  intros host.
  assert (Hstat : @fs_stat unit host "in/x.log" (machine emptyWorld)
                  = (tt, Return false)) by reflexivity.
  assert (Hexcl : @shouldExclude specMinimatch
                    (@path_basename unit host "in/x.log")
                    DEFAULT_EXCLUDE_PATTERNS = true) by reflexivity.
  assert (Hstat' : @fs_stat unit host "in/x.txt" (machine emptyWorld)
                   = (tt, Return false)) by reflexivity.
  assert (Hkept : @shouldExclude specMinimatch
                    (@path_basename unit host "in/x.txt")
                    DEFAULT_EXCLUDE_PATTERNS = false) by reflexivity.
  split.
  - split; [exact Hstat|]. split; [exact Hexcl|].
    exact (proj1 (@single_file_copy unit host specMinimatch "in/x.log" "out"
                    DEFAULT_EXCLUDE_PATTERNS false emptyWorld tt Hstat)
                 Hexcl).
  - split; [exact Hstat'|]. split; [exact Hkept|].
    destruct (proj2 (@single_file_copy unit host specMinimatch "in/x.txt"
                       "out" DEFAULT_EXCLUDE_PATTERNS false emptyWorld tt
                       Hstat')
                    Hkept) as [w2 [Hrun [_ [Hcalls _]]]].
    exists w2. split; [exact Hrun|exact Hcalls].
Defined.

Example single_file_copied :
  @useNodeImplementation unit (scriptedHost calmScript) specMinimatch
    "in/x.txt" "out" DEFAULT_EXCLUDE_PATTERNS false emptyWorld
  = (mkWorld tt [] []
       [CallStat "in/x.txt"; CallCopy "in/x.txt" "out/x.txt" None],
     Return tt).
Proof. reflexivity. Qed.

(** C8 (as stated).  The run on an excluded file returns no outcome of
    zero attempted and zero succeeded: it returns [undefined], the very
    value that the run on a file that is copied returns, so that no
    function of the returned value gives zero attempted entries for the
    skipped file and one for the copied file. *)
Lemma single_file_returns_no_outcome :
  let skipped :=
    @useNodeImplementation unit (scriptedHost calmScript) specMinimatch
      "in/x.log" "out" DEFAULT_EXCLUDE_PATTERNS false emptyWorld in
  let copied :=
    @useNodeImplementation unit (scriptedHost calmScript) specMinimatch
      "in/x.txt" "out" DEFAULT_EXCLUDE_PATTERNS false emptyWorld in
  snd skipped = Return tt
  /\ snd copied = Return tt
  /\ ~ In (CallCopy "in/x.log" "out/x.log" None) (calls (fst skipped))
  /\ In (CallCopy "in/x.txt" "out/x.txt" None) (calls (fst copied))
  /\ ~ exists outcomeOf : Completion unit -> CopyOutcome,
        attempted (outcomeOf (snd skipped)) = 0
        /\ attempted (outcomeOf (snd copied)) = 1.
Proof.
  intros skipped copied.
  assert (Hs : snd skipped = Return tt) by reflexivity.
  assert (Hc : snd copied = Return tt) by reflexivity.
  split; [exact Hs|]. split; [exact Hc|]. split; [|split].
  - vm_compute. intros [Heq|[]]. discriminate.
  - vm_compute. right. left. reflexivity.
  - intros [outcomeOf [H0 H1]]. rewrite Hs in H0. rewrite Hc in H1.
    rewrite H0 in H1. discriminate.
Qed.

(* ===================================================================== *)
(** * The batched copier *)
(* ===================================================================== *)

Section Copier.
Context {S : Type} `{Host S}.
Variables (root out : str) (verbose : bool).

(** [copyOne] begins with the [stat] of the source and writes nothing to
    the console. *)
Lemma copyOne_effect (src dest : str) (w : World S) :
  exists more,
    calls (fst (copyOne src dest w)) = calls w ++ CallStat src :: more
    /\ stdout (fst (copyOne src dest w)) = stdout w
    /\ stderr (fst (copyOne src dest w)) = stderr w.
Proof.
  unfold copyOne, bind, stat. rewrite hostCall_effect.
  destruct (fs_stat src (machine w)) as [s1 [[|]|e]]; cbn [fst snd].
  - unfold ensureDir. rewrite hostCall_effect.
    cbn [fst machine stdout stderr calls].
    exists [CallEnsureDir dest]. rewrite <- app_assoc. repeat split.
  - unfold copy. rewrite hostCall_effect.
    cbn [fst machine stdout stderr calls]. eexists.
    rewrite <- app_assoc. repeat split.
  - exists []. repeat split.
Qed.

(** One closure, step by step.  If the parent directory cannot be
    ensured, the closure throws: that call is outside the [try].  If it
    can, the closure returns whatever [copyOne] does: after a success
    the counter is one more and the error stream is as before; after a
    failure the counter is as before and the error stream has one more
    line, with the entry and the message. *)
Lemma copyEntry_step (entry : str) (frame : Frame S) :
  let parent := path_dirname (path_join out entry) in
  match snd (fs_ensureDir parent (machine (world frame))) with
  | Throw err =>
      copyEntry root out verbose entry frame
      = (mkFrame (fst (ensureDir parent (world frame)))
                 (copiedCount frame),
         Throw err)
  | Return _ =>
      exists frame',
        copyEntry root out verbose entry frame = (frame', Return tt)
        /\ match copyOneResult root out entry frame with
           | Return _ =>
               copiedCount frame' = copiedCount frame + 1
               /\ stderr (world frame') = stderr (world frame)
           | Throw err =>
               copiedCount frame' = copiedCount frame
               /\ stderr (world frame')
                  = stderr (world frame)
                    ++ [failureLine (entry, message err)]
           end
        /\ exists more,
             calls (world frame')
             = calls (world frame)
               ++ CallEnsureDir parent
               :: CallStat (path_join root entry) :: more
  end.
Proof.
  intros parent.
  destruct (fs_ensureDir parent (machine (world frame))) as [s1 r1]
    eqn:Hens.
  set (w1 := mkWorld s1 (stdout (world frame)) (stderr (world frame))
                     (calls (world frame) ++ [CallEnsureDir parent])).
  assert (Hw1 : ensureDir parent (world frame) = (w1, r1)).
  { unfold ensureDir. rewrite hostCall_effect, Hens. reflexivity. }
  assert (Hfirst : inWorld (ensureDir parent) frame
                   = (mkFrame w1 (copiedCount frame), r1)).
  { unfold inWorld. rewrite Hw1. reflexivity. }
  cbn [snd]. destruct r1 as [[]|err].
  2:{ unfold copyEntry. fold parent. unfold bind at 1.
      rewrite Hfirst, Hw1. reflexivity. }
  unfold copyOneResult. fold parent. rewrite Hw1. cbn [fst].
  destruct (copyOne_effect (path_join root entry) (path_join out entry) w1)
    as [more [Hcalls [Hout Herr]]].
  unfold copyEntry. fold parent. unfold bind at 1. rewrite Hfirst.
  unfold tryCatch. unfold bind at 1. unfold inWorld at 1.
  cbn [world copiedCount].
  destruct (copyOne (path_join root entry) (path_join out entry) w1)
    as [w2 [[]|err]] eqn:Hone; cbn [fst snd] in *.
  - unfold bind, incrementCopied, readCopied, when, inWorld, consoleLog, ret.
    cbn [world copiedCount].
    destruct (verbose && ((copiedCount frame + 1) mod 100 =? 0)%nat);
      eexists; (split; [reflexivity|]); cbn [world copiedCount stderr calls];
      (split; [split; [reflexivity|exact Herr]|]);
      exists more; rewrite Hcalls; unfold w1; cbn [calls];
      rewrite <- app_assoc; reflexivity.
  - unfold inWorld, consoleError. cbn [world copiedCount].
    eexists. split; [reflexivity|]. cbn [world copiedCount stderr calls].
    split; [split; [reflexivity|rewrite Herr; reflexivity]|].
    exists more. rewrite Hcalls. unfold w1. cbn [calls].
    rewrite <- app_assoc. reflexivity.
Qed.

Lemma copyBatches_unfolded (entries : list str) (i : nat)
  (frame : Frame S) :
  copyBatches root out verbose entries i frame
  = if (i <? length entries)%nat
    then match promiseAll
                 (map (copyEntry root out verbose)
                      (arraySlice entries i (i + BATCH_SIZE)))
                 frame with
         | (frame', Throw e) => (frame', Throw e)
         | (frame', Return _) =>
             copyBatches root out verbose entries (i + BATCH_SIZE) frame'
         end
    else (frame, Return tt).
Proof.
  rewrite copyBatches_equation_1.
  destruct (lt_dec i (length entries)) as [Hlt|Hge].
  - apply Nat.ltb_lt in Hlt as Hb. rewrite Hb. cbn.
    destruct (promiseAll _ frame) as [frame' [[]|e]]; reflexivity.
  - apply Nat.ltb_nlt in Hge as Hb. rewrite Hb. reflexivity.
Qed.

Lemma arraySlice_skipn (entries : list str) (i : nat) :
  skipn i entries
  = arraySlice entries i (i + BATCH_SIZE) ++ skipn (i + BATCH_SIZE) entries.
Proof.
  unfold arraySlice. replace (i + BATCH_SIZE - i) with BATCH_SIZE by lia.
  rewrite (Nat.add_comm i BATCH_SIZE), <- skipn_skipn.
  symmetry. apply firstn_skipn.
Qed.

Lemma arraySlice_In (entries : list str) (i j : nat) (e : str) :
  In e (arraySlice entries i j) -> In e entries.
Proof.
  unfold arraySlice. intros He.
  rewrite <- (firstn_skipn i entries). apply in_or_app. right.
  rewrite <- (firstn_skipn (j - i) (skipn i entries)).
  apply in_or_app. left. exact He.
Qed.

(** Once the await of a batch throws, the loop is left: the frame is the
    one that batch produced, and no later batch is started. *)
Lemma copyBatches_stops (entries : list str) (i : nat)
  (frame frame' : Frame S) (e : JsError) :
  i < length entries ->
  promiseAll (map (copyEntry root out verbose)
                  (arraySlice entries i (i + BATCH_SIZE))) frame
  = (frame', Throw e) ->
  copyBatches root out verbose entries i frame = (frame', Throw e).
Proof.
  intros Hlt Hbatch. rewrite copyBatches_unfolded.
  apply Nat.ltb_lt in Hlt. rewrite Hlt, Hbatch. reflexivity.
Qed.

(** One rejection among the closures of a batch and the await throws. *)
Lemma promiseAll_rejects (entries : list str) (entry : str)
  (frame : Frame S) :
  In entry entries ->
  (forall s, exists err,
      snd (fs_ensureDir (path_dirname (path_join out entry)) s) = Throw err) ->
  exists err,
    snd (promiseAll (map (copyEntry root out verbose) entries) frame)
    = Throw err.
Proof.
  intros Hin Hfail. revert frame.
  induction entries as [|e entries IH]; intros frame; [destruct Hin|].
  cbn [map promiseAll].
  destruct (copyEntry root out verbose e frame) as [frame1 r1] eqn:Hrun.
  destruct (promiseAll (map (copyEntry root out verbose) entries) frame1)
    as [frame2 r2] eqn:Hrest.
  cbn [snd]. destruct r1 as [[]|err1]; [|exists err1; reflexivity].
  destruct Hin as [->|Hin].
  - pose proof (copyEntry_step entry frame) as Hstep. cbv zeta in Hstep.
    destruct (Hfail (machine (world frame))) as [err Herr].
    rewrite Herr in Hstep. rewrite Hstep in Hrun. discriminate.
  - destruct (IH Hin frame1) as [err Herr]. rewrite Hrest in Herr.
    exists err. exact Herr.
Qed.

(** An entry of the first batch whose parent directory cannot be created
    makes the whole loop throw after that batch. *)
Lemma copyBatches_rejects (entries : list str) (entry : str)
  (frame : Frame S) :
  In entry (arraySlice entries 0 BATCH_SIZE) ->
  (forall s, exists err,
      snd (fs_ensureDir (path_dirname (path_join out entry)) s) = Throw err) ->
  exists err,
    copyBatches root out verbose entries 0 frame
    = (fst (promiseAll
              (map (copyEntry root out verbose)
                   (arraySlice entries 0 BATCH_SIZE)) frame),
       Throw err).
Proof.
  intros Hin Hfail.
  destruct (promiseAll_rejects _ entry frame Hin Hfail) as [err Herr].
  exists err. apply copyBatches_stops.
  - apply arraySlice_In in Hin as Hin'.
    destruct entries; [destruct Hin'|simpl; lia].
  - destruct (promiseAll _ frame) as [frame' r]. cbn [fst snd] in *.
    subst r. reflexivity.
Qed.

End Copier.

(* ===================================================================== *)
(** * The copier and the orchestrator on the scripted machines *)
(* ===================================================================== *)

Example flaky_batch :
  @batchedCopy unit (scriptedHost flakyScript) "src" "out" true
    ["x.txt"; "gone.txt"; "sub"; "locked.txt"; "sub/y.txt"] emptyWorld
  = (mkWorld tt
       [Colored Green "Successfully copied 3 out of 5 entries"]
       [Colored Red
          "Failed to copy gone.txt: ENOENT: no such file or directory, stat 'src/gone.txt'";
        Colored Red
          "Failed to copy locked.txt: EACCES: permission denied, copyfile 'src/locked.txt'"]
       [CallEnsureDir "out"; CallStat "src/x.txt";
        CallCopy "src/x.txt" "out/x.txt" (Some (mkFsCopyOptions true false));
        CallEnsureDir "out"; CallStat "src/gone.txt";
        CallEnsureDir "out"; CallStat "src/sub"; CallEnsureDir "out/sub";
        CallEnsureDir "out"; CallStat "src/locked.txt";
        CallCopy "src/locked.txt" "out/locked.txt"
                 (Some (mkFsCopyOptions true false));
        CallEnsureDir "out/sub"; CallStat "src/sub/y.txt";
        CallCopy "src/sub/y.txt" "out/sub/y.txt"
                 (Some (mkFsCopyOptions true false))],
     Return tt).
Proof. reflexivity. Qed.


(** C1 (the failing run).  The destination holds a regular file [out/a]
    and the source a directory [a] with the file [a/b.txt]; [z.txt] is the
    hundred-and-first entry, alone in the second batch.  For [a/b.txt] the
    creation of the parent directory fails outside the [try]: the batched
    copier throws that error instead of catching it, and [z.txt] is never
    attempted: no call names its source or its destination path. *)
Theorem parent_failure_aborts_later_batches :
  let run := @batchedCopy unit (scriptedHost blockedScript) "src" "out" false
               blockedEntries emptyWorld in
  length blockedEntries = 101
  /\ nth 1 blockedEntries [] = "a/b.txt"
  /\ nth 100 blockedEntries [] = "z.txt"
  /\ snd run = Throw (errno "EEXIST: file already exists" "mkdir" "out/a")
  /\ touched "src/z.txt" (calls (fst run)) = false
  /\ touched "out/z.txt" (calls (fst run)) = false.
Proof. vm_compute. repeat split. Qed.

(** In the same run the failure of the entry [a], raised inside the [try],
    is caught and written to the error stream, and the closures of the
    first batch, all started before the rejection, run to their end. *)
Example blocked_first_batch :
  let run := @batchedCopy unit (scriptedHost blockedScript) "src" "out" false
               blockedEntries emptyWorld in
  stderr (fst run)
  = [failureLine ("a", "EEXIST: file already exists, mkdir 'out/a'")]
  /\ touched "src/f97" (calls (fst run)) = true.
Proof. vm_compute. repeat split. Qed.

(** The same entries on a machine without the file in the way: all of
    them are copied, [z.txt] included. *)
Example unblocked_run :
  let run := @batchedCopy unit (scriptedHost calmScript) "src" "out" false
               blockedEntries emptyWorld in
  snd run = Return tt
  /\ touched "src/z.txt" (calls (fst run)) = true
  /\ touched "out/z.txt" (calls (fst run)) = true.
Proof. vm_compute. repeat split. Qed.

(** C4 (the failing run).  On Windows, with a directory as source, the
    robocopy command cannot be started: [execSync] throws an error whose
    [status] is [null].  The test [exitCode !== undefined && exitCode <= 7]
    passes, so [copyFiles] returns without an error and without a line on
    the console, and the portable implementation is never run: nothing is
    listed and nothing is copied. *)
Theorem spawn_failure_ends_without_fallback :
  let host := scriptedHost spawnFailureScript in
  let command :=
    robocopyCommand "src" "out"
      (processExcludePatternsForRobocopy DEFAULT_EXCLUDE_PATTERNS) in
  let run := @copyFiles unit host specMinimatch "src" "out"
               (mkCopyOptions [] false false) emptyWorld in
  snd (@execSync unit host command Ignore tt)
  = Throw (mkError "spawnSync cmd.exe ENOENT" StatusNull)
  /\ snd run = Return tt
  /\ stdout (fst run) = []
  /\ stderr (fst run) = []
  /\ calls (fst run)
     = [CallAccess "src"; CallEnsureDir "out"; CallStat "src";
        CallExecSync command Ignore]
  /\ filter isGlob (calls (fst run)) = []
  /\ filter isCopy (calls (fst run)) = [].
Proof. vm_compute. repeat split. Qed.

(** With an exit status of 16 on the same machine the fallback runs. *)
Example fatal_exit_status_falls_back :
  let script :=
    mkScript "win32" ["src"] [] [] [] ["x.txt"] (Exited 16) in
  let run := @copyFiles unit (scriptedHost script) specMinimatch "src" "out"
               (mkCopyOptions [] false false) emptyWorld in
  snd run = Return tt
  /\ stdout (fst run) = []
  /\ stderr (fst run) = []
  /\ filter isCopy (calls (fst run))
     = [CallCopy "src/x.txt" "out/x.txt" (Some (mkFsCopyOptions true false))].
Proof. vm_compute. repeat split. Qed.

(* ===================================================================== *)
(** * More on the string operations *)
(* ===================================================================== *)

Lemma split_nonempty (sep : ascii) (s : str) : split sep s <> [].
Proof.
  destruct s as [|c s]; simpl; [discriminate|].
  destruct (Ascii.eqb c sep); [discriminate|].
  destruct (split sep s); discriminate.
Qed.

Lemma split_app_sep (sep : ascii) (a b : str) :
  split sep (a ++ sep :: b) = split sep a ++ split sep b.
Proof.
  induction a as [|c a IH]; simpl.
  - rewrite Ascii.eqb_refl. reflexivity.
  - destruct (Ascii.eqb c sep); [rewrite IH; reflexivity|].
    rewrite IH. pose proof (split_nonempty sep a) as Hne.
    destruct (split sep a) as [|p ps]; [congruence|reflexivity].
Qed.

(** Joining the pieces of a split with another character replaces the
    separator; with the same character it gives the string back. *)
Lemma join_split (c d : ascii) (s : str) :
  join [d] (split c s) = replaceChar c d s.
Proof.
  induction s as [|x s IH]; [reflexivity|].
  cbn [split replaceChar map]. fold (replaceChar c d s).
  pose proof (split_nonempty c s) as Hne.
  destruct (Ascii.eqb x c).
  - destruct (split c s) as [|p ps]; [congruence|].
    change (join [d] ([] :: p :: ps)) with ([] ++ [d] ++ join [d] (p :: ps)).
    rewrite IH. reflexivity.
  - destruct (split c s) as [|p ps]; [congruence|].
    rewrite <- IH. destruct ps as [|q qs]; reflexivity.
Qed.

Lemma split_pieces_free (sep : ascii) (s : str) :
  Forall (fun piece => ~ In sep piece) (split sep s).
Proof.
  induction s as [|c s IH]; simpl.
  - constructor; [intros []|constructor].
  - destruct (Ascii.eqb c sep) eqn:Hc.
    + constructor; [intros []|exact IH].
    + destruct (split sep s) as [|p ps]; [repeat constructor; simpl|].
      * intros [->|[]]. rewrite Ascii.eqb_refl in Hc. discriminate.
      * inversion IH as [|? ? Hp Hps]; subst. constructor; [|exact Hps].
        intros [->|Hin]; [|exact (Hp Hin)].
        rewrite Ascii.eqb_refl in Hc. discriminate.
Qed.

Lemma split_free (sep : ascii) (s : str) :
  ~ In sep s -> split sep s = [s].
Proof.
  induction s as [|c s IH]; intros Hfree; [reflexivity|].
  simpl. destruct (Ascii.eqb c sep) eqn:Hc.
  - apply Ascii.eqb_eq in Hc. subst. exfalso. apply Hfree. left. reflexivity.
  - rewrite IH; [reflexivity|]. intros Hin. apply Hfree. right. exact Hin.
Qed.

Lemma startsWith_char (s : str) (c : ascii) :
  startsWith s [c] = match s with x :: _ => Ascii.eqb x c | [] => false end.
Proof.
  destruct s as [|x s]; [reflexivity|]. simpl.
  destruct s; apply andb_true_r.
Qed.

(** [s.includes(c)] for a one-character string is membership. *)
Lemma includes_char (s : str) (c : ascii) :
  includes s [c] = true <-> In c s.
Proof.
  induction s as [|x s IH].
  - simpl. split; [discriminate|intros []].
  - cbn [includes]. rewrite startsWith_char, orb_true_iff, IH.
    rewrite Ascii.eqb_eq. simpl. split; intros [Hx|Hin]; auto.
Qed.

Lemma includes_char_false (s : str) (c : ascii) :
  includes s [c] = false <-> ~ In c s.
Proof.
  rewrite <- includes_char. destruct (includes s [c]); split;
    congruence.
Qed.

Lemma trimStart_fixed (s : str) :
  leadingWhiteSpace s = false -> trimStart s = s.
Proof.
  destruct s as [|c s]; [reflexivity|]. simpl. intros ->. reflexivity.
Qed.

Lemma trimEnd_idempotent (s : str) : trimEnd (trimEnd s) = trimEnd s.
Proof.
  induction s as [|c s IH]; [reflexivity|]. simpl.
  destruct (trimEnd s) as [|x t] eqn:Ht.
  - destruct (isWhiteSpace c) eqn:Hc; [reflexivity|].
    simpl. rewrite Hc. reflexivity.
  - change (trimEnd (c :: x :: t))
      with (match trimEnd (x :: t) with
            | [] => if isWhiteSpace c then [] else [c]
            | t' => c :: t'
            end).
    rewrite IH. reflexivity.
Qed.

Lemma trim_idempotent (s : str) : trim (trim s) = trim s.
Proof.
  unfold trim at 1. rewrite trimStart_fixed by apply trim_clean.
  unfold trim. apply trimEnd_idempotent.
Qed.

Lemma trimStart_In (s : str) (c : ascii) : In c (trimStart s) -> In c s.
Proof.
  induction s as [|x s IH]; simpl; [tauto|].
  destruct (isWhiteSpace x); [intros Hin; right; exact (IH Hin)|].
  simpl. tauto.
Qed.

Lemma trimEnd_In (s : str) (c : ascii) : In c (trimEnd s) -> In c s.
Proof.
  induction s as [|x s IH]; simpl; [tauto|].
  destruct (trimEnd s) as [|y t].
  - destruct (isWhiteSpace x); simpl; tauto.
  - simpl in *. intros [Hx|Hin]; [left; exact Hx|right; exact (IH Hin)].
Qed.

Lemma trim_In (s : str) (c : ascii) : In c (trim s) -> In c s.
Proof. intros Hin. apply trimStart_In, trimEnd_In. exact Hin. Qed.

(* ===================================================================== *)
(** * More on the pattern normaliser *)
(* ===================================================================== *)

(** X1.  [processExcludePatterns] treats its options one by one: the
    patterns of two lists of options put together are the patterns of the
    first list followed by those of the second. *)
Theorem processExcludePatterns_app (a b : list str) :
  processExcludePatterns (a ++ b)
  = processExcludePatterns a ++ processExcludePatterns b.
Proof.
  rewrite !processExcludePatterns_spec. unfold normalize_spec.
  apply flat_map_app.
Qed.

Lemma normalize_spec_pieces (raw : list str) :
  Forall (fun p => isEmpty p = false /\ trim p = p /\ ~ In ","%char p)
         (normalize_spec raw).
Proof.
  apply Forall_forall. intros p Hp. unfold normalize_spec in Hp.
  apply in_flat_map in Hp. destruct Hp as [token [_ Hp]].
  apply filter_In in Hp. destruct Hp as [Hp Hne].
  apply in_map_iff in Hp. destruct Hp as [piece [<- Hpiece]].
  split; [destruct (isEmpty (trim piece)); [discriminate|reflexivity]|].
  split; [apply trim_idempotent|].
  intros Hin. apply trim_In in Hin.
  pose proof (split_pieces_free "," token) as Hfree.
  rewrite Forall_forall in Hfree. exact (Hfree piece Hpiece Hin).
Qed.

Lemma normalize_spec_fixed (l : list str) :
  Forall (fun p => isEmpty p = false /\ trim p = p /\ ~ In ","%char p) l ->
  normalize_spec l = l.
Proof.
  induction 1 as [|p l [Hne [Htrim Hfree]] _ IH]; [reflexivity|].
  cbn [normalize_spec flat_map]. fold (normalize_spec l). rewrite IH.
  rewrite (split_free "," p Hfree). cbn [map filter].
  rewrite Htrim, Hne. reflexivity.
Qed.

(** X2.  The output of [processExcludePatterns] is a fixed point: no
    pattern of it contains a comma, and processing the output again
    changes nothing. *)
Theorem processExcludePatterns_idempotent (raw : list str) :
  Forall (fun p => ~ In ","%char p) (processExcludePatterns raw)
  /\ processExcludePatterns (processExcludePatterns raw)
     = processExcludePatterns raw.
Proof.
  rewrite !processExcludePatterns_spec.
  pose proof (normalize_spec_pieces raw) as Hpieces. split.
  - eapply Forall_impl; [|exact Hpieces]. intros p [_ [_ Hfree]]. exact Hfree.
  - apply normalize_spec_fixed. exact Hpieces.
Qed.

(** X3.  One option that joins two values with a comma gives the same
    patterns as the two values given as separate options, wherever it
    stands among the other options. *)
Theorem processExcludePatterns_comma (before after : list str) (a b : str) :
  processExcludePatterns (before ++ [a ++ "," ++ b] ++ after)
  = processExcludePatterns (before ++ [a; b] ++ after).
Proof.
  rewrite !processExcludePatterns_spec. unfold normalize_spec.
  rewrite !flat_map_app. f_equal. f_equal.
  cbn [flat_map]. rewrite !app_nil_r.
  change (a ++ "," ++ b) with (a ++ ","%char :: b).
  rewrite split_app_sep, map_app, filter_app. reflexivity.
Qed.

(* ===================================================================== *)
(** * More on the path matcher *)
(* ===================================================================== *)

(** X4.  [shouldExclude] is a disjunction over the patterns: with no
    pattern nothing is excluded, and a path is excluded by two lists put
    together exactly when one of the two excludes it, whatever the glob
    matcher is. *)
Theorem shouldExclude_app `{Minimatch} (filePath : str) (a b : list str) :
  shouldExclude filePath [] = false
  /\ shouldExclude filePath (a ++ b)
     = shouldExclude filePath a || shouldExclude filePath b.
Proof.
  split; [reflexivity|].
  rewrite !shouldExclude_normal_form.
  destruct a as [|x a]; [reflexivity|].
  destruct b as [|y b].
  - rewrite app_nil_r, orb_false_r. reflexivity.
  - cbn [length app Nat.eqb].
    change (x :: a ++ y :: b) with ((x :: a) ++ y :: b).
    rewrite map_app. unfold some. apply existsb_app.
Qed.

(* ===================================================================== *)
(** * More on the robocopy exclusion translator *)
(* ===================================================================== *)

Lemma list_ind2 {A} (P : list A -> Prop) :
  P [] ->
  (forall a, P [a]) ->
  (forall a b l, P l -> P (b :: l) -> P (a :: b :: l)) ->
  forall l, P l.
Proof.
  intros Hnil Hone Hstep.
  assert (Hboth : forall l, P l /\ forall a, P (a :: l)).
  { induction l as [|b l [IHl IHcons]]; split; auto. }
  intros l. apply Hboth.
Qed.

Lemma replaceStarStar_one (a : ascii) : replaceStarStar [a] = [a].
Proof. destruct a as [[] [] [] [] [] [] [] []]; reflexivity. Qed.

Lemma replaceStarStar_two (a b : ascii) (l : str) :
  replaceStarStar (a :: b :: l)
  = if Ascii.eqb a "*" && Ascii.eqb b "*"
    then "*"%char :: replaceStarStar l
    else a :: replaceStarStar (b :: l).
Proof.
  destruct (Ascii.eqb a "*") eqn:Ha.
  - apply Ascii.eqb_eq in Ha. subst a.
    destruct (Ascii.eqb b "*") eqn:Hb.
    + apply Ascii.eqb_eq in Hb. subst b. reflexivity.
    + destruct b as [[] [] [] [] [] [] [] []];
        try reflexivity; discriminate Hb.
  - destruct a as [[] [] [] [] [] [] [] []];
      try reflexivity; discriminate Ha.
Qed.

Lemma replaceStarStar_In (c : ascii) (s : str) :
  In c (replaceStarStar s) -> In c s.
Proof.
  induction s as [|a|a b l IHl IHbl] using list_ind2.
  - intros [].
  - rewrite replaceStarStar_one. tauto.
  - rewrite replaceStarStar_two.
    destruct (Ascii.eqb a "*" && Ascii.eqb b "*") eqn:Hab.
    + apply andb_prop in Hab. destruct Hab as [Ha Hb].
      apply Ascii.eqb_eq in Ha, Hb. subst.
      intros [<-|Hin]; [left; reflexivity|right; right; exact (IHl Hin)].
    + intros [<-|Hin]; [left; reflexivity|right; exact (IHbl Hin)].
Qed.

Lemma endsWith_In (s suf : str) (c : ascii) :
  endsWith s suf = true -> In c suf -> In c s.
Proof.
  intros Hends Hin. rewrite (endsWith_split s suf Hends).
  apply in_or_app. right. exact Hin.
Qed.

Lemma toSlash_no_backslash (p : str) :
  ~ In "\"%char (replaceChar "\" "/" p).
Proof.
  unfold replaceChar. rewrite in_map_iff. intros [x [Hx _]].
  destruct (Ascii.eqb x "\") eqn:Hb; [discriminate|].
  subst x. discriminate.
Qed.

(** The loop body on a pattern without a slash. *)
Lemma translatePattern_plain (acc : RobocopyExcludes) (p : str) :
  includes (replaceChar "\" "/" p) "/" = false ->
  let filePattern := replaceStarStar (replaceChar "\" "/" p) in
  translatePattern acc p
  = if negb (includes filePattern "*") && negb (includes filePattern "?")
       && negb (includes filePattern ".")
    then pushDir acc filePattern
    else pushFile acc filePattern.
Proof.
  intros Hslash filePattern. unfold translatePattern.
  assert (Hfree : ~ In "/"%char (replaceChar "\" "/" p)).
  { apply includes_char_false. exact Hslash. }
  destruct (endsWith (replaceChar "\" "/" p) "/**") eqn:Hends.
  { exfalso. apply Hfree.
    apply (endsWith_In _ "/**" "/"%char Hends). simpl. tauto. }
  rewrite Hslash, replaceChar_same. fold filePattern.
  destruct (endsWith filePattern "/") eqn:Hends2.
  { exfalso. apply Hfree. apply replaceStarStar_In.
    apply (endsWith_In _ "/" "/"%char Hends2). simpl. tauto. }
  destruct (includes filePattern "*"), (includes filePattern "?"),
    (includes filePattern "."); reflexivity.
Qed.

(** X5.  A pattern without a path separator is never dropped and lands in
    exactly one list: with its double stars collapsed to single stars it
    becomes a directory exclusion when it has no [*], no [?] and no dot,
    and a file exclusion otherwise; the branch for a trailing slash is
    never taken. *)
Theorem plain_pattern_classified (acc : RobocopyExcludes) (p : str) :
  includes (replaceChar "\" "/" p) "/" = false ->
  let filePattern := replaceStarStar (replaceChar "\" "/" p) in
  endsWith filePattern "/" = false
  /\ translatePattern acc p
     = if negb (includes filePattern "*") && negb (includes filePattern "?")
          && negb (includes filePattern ".")
       then mkExcludes (dirExcludes acc ++ [filePattern]) (fileExcludes acc)
       else mkExcludes (dirExcludes acc) (fileExcludes acc ++ [filePattern]).
Proof.
  intros Hslash filePattern. split.
  - destruct (endsWith filePattern "/") eqn:Hends; [|reflexivity].
    exfalso. apply (proj1 (includes_char_false _ _) Hslash).
    apply replaceStarStar_In.
    apply (endsWith_In _ "/" "/"%char Hends). simpl. tauto.
  - apply translatePattern_plain. exact Hslash.
Qed.

Lemma plain_pattern_classified_witness :
  includes (replaceChar "\" "/" "**.tmp") "/" = false
  /\ translatePattern noExcludes "**.tmp" = mkExcludes [] ["*.tmp"]
  /\ includes (replaceChar "\" "/" "Makefile") "/" = false
  /\ translatePattern noExcludes "Makefile" = mkExcludes ["Makefile"] [].
Proof.
  assert (H1 : includes (replaceChar "\" "/" "**.tmp") "/" = false)
    by reflexivity.
  assert (H2 : includes (replaceChar "\" "/" "Makefile") "/" = false)
    by reflexivity.
  split; [exact H1|].
  split; [exact (proj2 (plain_pattern_classified noExcludes "**.tmp" H1))|].
  split; [exact H2|].
  exact (proj2 (plain_pattern_classified noExcludes "Makefile" H2)).
Defined.

(** X6.  No file exclusion of a plan contains a path separator, slash or
    backslash: the [/XF] arguments are bare names and name patterns. *)
Theorem fileExcludes_are_names (ps : list str) :
  Forall (fun f => ~ In "/"%char f /\ ~ In "\"%char f)
         (fileExcludes (processExcludePatternsForRobocopy ps)).
Proof.
  apply Forall_forall. intros f Hf.
  rewrite processExcludePatternsForRobocopy_eq in Hf. cbn [fileExcludes] in Hf.
  rewrite unique_In, in_flat_map in Hf. destruct Hf as [p [_ Hf]].
  destruct (includes (replaceChar "\" "/" p) "/") eqn:Hslash.
  - exfalso. unfold translatePattern in Hf. rewrite Hslash in Hf.
    destruct (endsWith (replaceChar "\" "/" p) "/**");
      [exact Hf|].
    destruct (negb _); exact Hf.
  - rewrite (translatePattern_plain noExcludes p Hslash) in Hf.
    assert (Heq : f = replaceStarStar (replaceChar "\" "/" p)).
    { destruct (negb _ && negb _ && negb _); simpl in Hf;
        [destruct Hf|destruct Hf as [Hf|[]]; symmetry; exact Hf]. }
    subst f. split; intros Hin; apply replaceStarStar_In in Hin.
    + exact (proj1 (includes_char_false _ _) Hslash Hin).
    + exact (toSlash_no_backslash p Hin).
Qed.

(** X7.  A pattern with a slash that does not end in [/**] and has no star
    in its last segment becomes a directory exclusion written with
    backslashes: the pattern with every separator replaced by a backslash,
    in which no slash is left. *)
Theorem subpath_pattern_backslashed (ps : list str) (p : str) :
  let normalizedPattern := replaceChar "\" "/" p in
  let parts := split "/" normalizedPattern in
  In p ps ->
  includes normalizedPattern "/" = true ->
  endsWith normalizedPattern "/**" = false ->
  includes (nth (length parts - 1) parts []) "*" = false ->
  In (replaceChar "/" "\" normalizedPattern)
     (dirExcludes (processExcludePatternsForRobocopy ps))
  /\ ~ In "/"%char (replaceChar "/" "\" normalizedPattern).
Proof.
  intros normalizedPattern parts Hin Hslash Hends Hstar. split.
  - rewrite processExcludePatternsForRobocopy_eq. cbn [dirExcludes].
    apply unique_In. apply in_or_app. left. apply in_flat_map.
    exists p. split; [exact Hin|].
    unfold translatePattern. fold normalizedPattern.
    rewrite Hends, Hslash. fold parts. rewrite Hstar.
    cbn [negb pushDir dirExcludes noExcludes app]. left.
    unfold parts. apply (join_split "/" "\").
  - unfold replaceChar at 1. rewrite in_map_iff. intros [x [Hx _]].
    destruct (Ascii.eqb x "/") eqn:Hb; [discriminate|].
    subst x. discriminate.
Qed.

Lemma subpath_pattern_backslashed_witness :
  In "docs/api\v1" ["*.log"; "docs/api\v1"]
  /\ In "docs\api\v1"
        (dirExcludes
           (processExcludePatternsForRobocopy ["*.log"; "docs/api\v1"])).
Proof.
  assert (Hin : In "docs/api\v1" ["*.log"; "docs/api\v1"])
    by (simpl; tauto).
  split; [exact Hin|].
  exact (proj1 (subpath_pattern_backslashed ["*.log"; "docs/api\v1"]
                  "docs/api\v1" Hin eq_refl eq_refl eq_refl)).
Defined.

Lemma mem_seen (x : str) (seen : list str) :
  existsb (str_eqb x) seen = true <-> In x seen.
Proof.
  rewrite existsb_exists. split.
  - intros [y [Hy Hxy]]. apply str_eqb_eq in Hxy. subst. exact Hy.
  - intros Hin. exists x. split; [exact Hin|apply str_eqb_refl].
Qed.

(** [uniqueFrom] looks at the members of [seen] only. *)
Lemma uniqueFrom_seen (arr seen seen' : list str) :
  (forall x, In x seen <-> In x seen') ->
  uniqueFrom seen arr = uniqueFrom seen' arr.
Proof.
  revert seen seen'. induction arr as [|y arr IH]; intros seen seen' Hsame;
    [reflexivity|].
  simpl.
  assert (Hy : existsb (str_eqb y) seen = existsb (str_eqb y) seen').
  { destruct (existsb (str_eqb y) seen) eqn:H1;
      destruct (existsb (str_eqb y) seen') eqn:H2; try reflexivity.
    - apply mem_seen, Hsame, mem_seen in H1. congruence.
    - apply mem_seen, Hsame, mem_seen in H2. congruence. }
  rewrite Hy. destruct (existsb (str_eqb y) seen').
  - apply IH. exact Hsame.
  - f_equal. apply IH. intros x. simpl. rewrite Hsame. tauto.
Qed.

Lemma uniqueFrom_app (a b seen : list str) :
  uniqueFrom seen (a ++ b)
  = uniqueFrom seen a ++ uniqueFrom (rev a ++ seen) b.
Proof.
  revert seen. induction a as [|x a IH]; intros seen; [reflexivity|].
  simpl. destruct (existsb (str_eqb x) seen) eqn:Hx.
  - rewrite IH. f_equal. apply uniqueFrom_seen. intros y.
    rewrite !in_app_iff. simpl. apply mem_seen in Hx.
    split; [tauto|]. intros [[Hy|[<-|[]]]|Hy]; tauto.
  - simpl. rewrite IH. f_equal. f_equal. rewrite <- app_assoc. reflexivity.
Qed.

Lemma uniqueFrom_all_seen (arr seen : list str) :
  incl arr seen -> uniqueFrom seen arr = [].
Proof.
  induction arr as [|x arr IH]; intros Hincl; [reflexivity|].
  simpl. rewrite (proj2 (mem_seen x seen)) by (apply Hincl; left; reflexivity).
  apply IH. intros y Hy. apply Hincl. right. exact Hy.
Qed.

(** Elements that occurred before add nothing to the unique array. *)
Lemma unique_absorb (a b c : list str) :
  incl b a -> unique (a ++ b ++ c) = unique (a ++ c).
Proof.
  intros Hincl. unfold unique. rewrite !uniqueFrom_app.
  rewrite (uniqueFrom_all_seen b (rev a ++ [])).
  - cbn [app]. f_equal. apply uniqueFrom_seen. intros x.
    rewrite !in_app_iff, <- !in_rev. specialize (Hincl x). tauto.
  - intros x Hx. rewrite in_app_iff, <- in_rev. left. apply Hincl. exact Hx.
Qed.

Lemma some_absorb (f : str -> bool) (ps extra : list str) :
  incl extra ps -> some f (ps ++ extra) = some f ps.
Proof.
  intros Hincl. unfold some. rewrite existsb_app.
  destruct (existsb f extra) eqn:He; [|apply orb_false_r].
  apply existsb_exists in He. destruct He as [x [Hx Hfx]].
  rewrite orb_true_r. symmetry. apply existsb_exists.
  exists x. split; [apply Hincl; exact Hx|exact Hfx].
Qed.

Lemma flat_map_incl {A B} (f : A -> list B) (extra ps : list A) :
  incl extra ps -> incl (flat_map f extra) (flat_map f ps).
Proof.
  intros Hincl y Hy. apply in_flat_map in Hy. destruct Hy as [x [Hx Hy]].
  apply in_flat_map. exists x. split; [apply Hincl; exact Hx|exact Hy].
Qed.

(** X8.  Repeating patterns is harmless for the translator: a plan does
    not change when patterns that are already in the list are added after
    it, and its two lists keep their order. *)
Theorem repeated_patterns_ignored (ps extra : list str) :
  incl extra ps ->
  processExcludePatternsForRobocopy (ps ++ extra)
  = processExcludePatternsForRobocopy ps.
Proof.
  intros Hincl. rewrite !processExcludePatternsForRobocopy_eq.
  rewrite !flat_map_app.
  assert (Hfilter :
    filter (fun rule => some (fun p => includes p (fst rule)) (ps ++ extra))
           commonPatterns
    = filter (fun rule => some (fun p => includes p (fst rule)) ps)
             commonPatterns).
  { apply filter_ext. intros rule. apply some_absorb. exact Hincl. }
  rewrite Hfilter. f_equal.
  - rewrite <- app_assoc. apply unique_absorb.
    apply flat_map_incl. exact Hincl.
  - rewrite <- (app_nil_r (flat_map _ extra)).
    rewrite unique_absorb by (apply flat_map_incl; exact Hincl).
    rewrite app_nil_r. reflexivity.
Qed.

Lemma repeated_patterns_ignored_witness :
  incl ["*.log"; "dist/**"] ["dist/**"; "*.log"; "tmp"]
  /\ processExcludePatternsForRobocopy
       (["dist/**"; "*.log"; "tmp"] ++ ["*.log"; "dist/**"])
     = mkExcludes ["dist"; "tmp"] ["*.log"].
Proof.
  assert (Hincl : incl ["*.log"; "dist/**"] ["dist/**"; "*.log"; "tmp"]).
  { intros x Hx. simpl in *. tauto. }
  split; [exact Hincl|].
  exact (eq_trans
           (repeated_patterns_ignored ["dist/**"; "*.log"; "tmp"]
              ["*.log"; "dist/**"] Hincl)
           eq_refl).
Defined.

(** X9.  Adding patterns never removes an exclusion: every directory and
    every file exclusion of the plan of a list is in the plan of any
    longer list that begins or ends with it. *)
Theorem plan_monotone (before ps after : list str) :
  incl (dirExcludes (processExcludePatternsForRobocopy ps))
       (dirExcludes (processExcludePatternsForRobocopy (before ++ ps ++ after)))
  /\ incl (fileExcludes (processExcludePatternsForRobocopy ps))
          (fileExcludes
             (processExcludePatternsForRobocopy (before ++ ps ++ after))).
Proof.
  assert (Hincl : incl ps (before ++ ps ++ after)).
  { intros x Hx. rewrite !in_app_iff. tauto. }
  rewrite !processExcludePatternsForRobocopy_eq.
  cbn [dirExcludes fileExcludes]. split; intros x; rewrite !unique_In.
  - rewrite !in_app_iff. intros [Hx|Hx].
    + left. exact (flat_map_incl _ _ _ Hincl x Hx).
    + right. apply in_map_iff in Hx. destruct Hx as [rule [<- Hrule]].
      apply in_map. apply filter_In in Hrule. destruct Hrule as [Hin Hsome].
      apply filter_In. split; [exact Hin|].
      unfold some in *. apply existsb_exists in Hsome.
      destruct Hsome as [p [Hp Hkey]]. apply existsb_exists.
      exists p. split; [apply Hincl; exact Hp|exact Hkey].
  - apply flat_map_incl. exact Hincl.
Qed.

(* ===================================================================== *)
(** * More on the copy orchestrator *)
(* ===================================================================== *)

Lemma copyFiles_exit_status_witness :
  let host := scriptedHost (windowsScript 3) in
  let command :=
    robocopyCommand "src" "out"
      (processExcludePatternsForRobocopy DEFAULT_EXCLUDE_PATTERNS) in
  let e := mkError ("Command failed: " ++ command) (StatusNumber 3) in
  (@os_platform unit host = "win32"
   /\ @fs_access unit host "src" tt = (tt, Return tt)
   /\ @fs_ensureDir unit host "out" tt = (tt, Return tt)
   /\ @fs_stat unit host "src" tt = (tt, Return true)
   /\ snd (@execSync unit host command Ignore tt) = Throw e
   /\ status e = StatusNumber (Z.of_N 3))
  /\ @copyFiles unit host specMinimatch "src" "out"
       (mkCopyOptions [] false false) emptyWorld
     = (mkWorld tt [] []
          [CallAccess "src"; CallEnsureDir "out"; CallStat "src";
           CallExecSync command Ignore],
        Return tt).
Proof.
  intros host command e.
  split; [repeat split; reflexivity|].
  exact (eq_trans
           (@copyFiles_exit_status unit host specMinimatch "src" "out" []
              false emptyWorld tt tt tt e 3
              eq_refl eq_refl eq_refl eq_refl eq_refl eq_refl)
           eq_refl).
Defined.

Section OrchestratorErrors.
Context {S : Type} `{Host S} `{Minimatch}.

(** The first two calls of [copyFiles] and what follows them. *)
Lemma copyFiles_start (inputPath outputPath : str) (options : CopyOptions)
  (w : World S) :
  copyFiles inputPath outputPath options w
  = let out := stdout w ++ openingLines inputPath outputPath (verbose options) in
    match fs_access inputPath (machine w) with
    | (s1, Throw _) =>
        (mkWorld s1 out (stderr w) (calls w ++ [CallAccess inputPath]),
         Throw (mkError ("Source path does not exist: " ++ inputPath)
                        StatusUndefined))
    | (s1, Return _) =>
        match fs_ensureDir outputPath s1 with
        | (s2, Throw e) =>
            (mkWorld s2 out (stderr w)
                     (calls w ++ [CallAccess inputPath;
                                  CallEnsureDir outputPath]),
             Throw e)
        | (s2, Return _) =>
            copyFilesRest inputPath outputPath
              (if ignoreDefaults options then excludePatterns options
               else DEFAULT_EXCLUDE_PATTERNS ++ excludePatterns options)
              (verbose options)
              (mkWorld s2 out (stderr w)
                       (calls w ++ [CallAccess inputPath;
                                    CallEnsureDir outputPath]))
        end
    end.
Proof.
  cbv zeta. unfold copyFiles.
  fold (copyFilesRest inputPath outputPath
          (if ignoreDefaults options then excludePatterns options
           else DEFAULT_EXCLUDE_PATTERNS ++ excludePatterns options)
          (verbose options)).
  destruct (verbose options); cbn [when openingLines].
  - unfold bind at 1. unfold bind at 1. unfold consoleLog at 1 2.
    cbn [machine stdout stderr calls].
    unfold bind at 1. unfold tryCatch, access. rewrite hostCall_effect.
    cbn [machine stdout stderr calls]. rewrite <- app_assoc. cbn [app].
    destruct (fs_access inputPath (machine w)) as [s1 [[]|e]]; cbn [fst snd];
      [|reflexivity].
    unfold bind at 1. unfold ensureDir. rewrite hostCall_effect.
    cbn [machine stdout stderr calls]. rewrite <- app_assoc. cbn [app].
    destruct (fs_ensureDir outputPath s1) as [s2 [[]|e]]; reflexivity.
  - rewrite app_nil_r. unfold bind at 1. unfold ret at 1.
    unfold bind at 1. unfold tryCatch, access. rewrite hostCall_effect.
    destruct (fs_access inputPath (machine w)) as [s1 [[]|e]]; cbn [fst snd];
      [|reflexivity].
    unfold bind at 1. unfold ensureDir. rewrite hostCall_effect.
    cbn [machine stdout stderr calls]. rewrite <- app_assoc. cbn [app].
    destruct (fs_ensureDir outputPath s1) as [s2 [[]|e]]; reflexivity.
Qed.

(** X11.  When the source path cannot be accessed, [copyFiles] throws an
    error with the message [Source path does not exist: <inputPath>] in
    place of the error of [fs.access], and does nothing else: [access] is
    its only call, the destination is not created and nothing goes to the
    error stream. *)
Theorem copyFiles_source_missing (inputPath outputPath : str)
  (options : CopyOptions) (w : World S) (s1 : S) (e : JsError) :
  fs_access inputPath (machine w) = (s1, Throw e) ->
  snd (copyFiles inputPath outputPath options w)
  = Throw (mkError ("Source path does not exist: " ++ inputPath)
                   StatusUndefined)
  /\ calls (fst (copyFiles inputPath outputPath options w))
     = calls w ++ [CallAccess inputPath]
  /\ machine (fst (copyFiles inputPath outputPath options w)) = s1
  /\ stderr (fst (copyFiles inputPath outputPath options w)) = stderr w.
Proof.
  intros Haccess. rewrite copyFiles_start. cbv zeta. rewrite Haccess.
  repeat split.
Qed.

(** X12.  When the destination directory cannot be created, the error of
    [fs.ensureDir] leaves [copyFiles] as it is, after the two calls
    [access] and [ensureDir]: the source is not even examined. *)
Theorem copyFiles_destination_uncreatable (inputPath outputPath : str)
  (options : CopyOptions) (w : World S) (s1 s2 : S) (e : JsError) :
  fs_access inputPath (machine w) = (s1, Return tt) ->
  fs_ensureDir outputPath s1 = (s2, Throw e) ->
  snd (copyFiles inputPath outputPath options w) = Throw e
  /\ calls (fst (copyFiles inputPath outputPath options w))
     = calls w ++ [CallAccess inputPath; CallEnsureDir outputPath]
  /\ machine (fst (copyFiles inputPath outputPath options w)) = s2
  /\ stderr (fst (copyFiles inputPath outputPath options w)) = stderr w.
Proof.
  intros Haccess Hensure. rewrite copyFiles_start. cbv zeta.
  rewrite Haccess, Hensure. repeat split.
Qed.

End OrchestratorErrors.

Lemma copyFiles_source_missing_witness :
  let host := scriptedHost missingScript in
  let e := errno "ENOENT: no such file or directory" "access" "src" in
  @fs_access unit host "src" (machine emptyWorld) = (tt, Throw e)
  /\ @copyFiles unit host specMinimatch "src" "out"
       (mkCopyOptions [] false false) emptyWorld
     = (mkWorld tt [] [] [CallAccess "src"],
        Throw (mkError "Source path does not exist: src" StatusUndefined)).
Proof.
  intros host e.
  assert (Haccess : @fs_access unit host "src" (machine emptyWorld)
                    = (tt, Throw e)) by reflexivity.
  split; [exact Haccess|].
  pose proof (@copyFiles_source_missing unit host specMinimatch "src" "out"
                (mkCopyOptions [] false false) emptyWorld tt e Haccess)
    as [Hres _].
  destruct (@copyFiles unit host specMinimatch "src" "out"
              (mkCopyOptions [] false false) emptyWorld) as [w r] eqn:Hrun.
  cbn [snd] in Hres. subst r.
  vm_compute in Hrun. inversion Hrun. reflexivity.
Defined.

Lemma copyFiles_destination_uncreatable_witness :
  let host := scriptedHost readOnlyScript in
  let e := errno "EEXIST: file already exists" "mkdir" "out" in
  (@fs_access unit host "src" (machine emptyWorld) = (tt, Return tt)
   /\ @fs_ensureDir unit host "out" tt = (tt, Throw e))
  /\ snd (@copyFiles unit host specMinimatch "src" "out"
            (mkCopyOptions [] false false) emptyWorld)
     = Throw e.
Proof.
  intros host e.
  assert (Haccess : @fs_access unit host "src" (machine emptyWorld)
                    = (tt, Return tt)) by reflexivity.
  assert (Hensure : @fs_ensureDir unit host "out" tt = (tt, Throw e))
    by reflexivity.
  split; [split; [exact Haccess|exact Hensure]|].
  exact (proj1 (@copyFiles_destination_uncreatable unit host specMinimatch
                  "src" "out" (mkCopyOptions [] false false) emptyWorld
                  tt tt e Haccess Hensure)).
Defined.

(* ===================================================================== *)
(** * What is called, and what is not *)
(* ===================================================================== *)

Section Traces.
Context {S : Type} `{Host S} `{Minimatch}.
Variable allowed : Call -> bool.

Lemma extendsWith_refl (w : World S) : extendsWith allowed w w.
Proof. exists []. split; [symmetry; apply app_nil_r|reflexivity]. Qed.

Lemma extendsWith_trans (w1 w2 w3 : World S) :
  extendsWith allowed w1 w2 -> extendsWith allowed w2 w3 ->
  extendsWith allowed w1 w3.
Proof.
  intros [m1 [H1 A1]] [m2 [H2 A2]]. exists (m1 ++ m2). split.
  - rewrite H2, H1, app_assoc. reflexivity.
  - rewrite forallb_app, A1, A2. reflexivity.
Qed.

Lemma traces_ret {A} (a : A) : @traces S A allowed (ret a).
Proof. intros w. apply extendsWith_refl. Qed.

Lemma traces_throw {A} (e : JsError) : @traces S A allowed (throw e).
Proof. intros w. apply extendsWith_refl. Qed.

Lemma traces_hostCall {A} (c : Call) (op : S -> S * Completion A) :
  allowed c = true -> traces allowed (hostCall c op).
Proof.
  intros Hc w. rewrite hostCall_effect. exists [c]. split; [reflexivity|].
  simpl. rewrite Hc. reflexivity.
Qed.

Lemma traces_consoleLog (l : LogLine) : @traces S unit allowed (consoleLog l).
Proof. intros w. exists []. split; [symmetry; apply app_nil_r|reflexivity]. Qed.

Lemma traces_consoleError (l : LogLine) :
  @traces S unit allowed (consoleError l).
Proof. intros w. exists []. split; [symmetry; apply app_nil_r|reflexivity]. Qed.

(** The continuation matters only for the values that the first part can
    return. *)
Lemma traces_bind {A B} (m : M (World S) A) (k : A -> M (World S) B) :
  traces allowed m ->
  (forall a, (exists w, snd (m w) = Return a) -> traces allowed (k a)) ->
  traces allowed (bind m k).
Proof.
  intros Hm Hk w. unfold bind. specialize (Hm w).
  destruct (m w) as [w1 [a|e]] eqn:Hrun; cbn [fst] in *; [|exact Hm].
  eapply extendsWith_trans; [exact Hm|].
  apply Hk. exists w. rewrite Hrun. reflexivity.
Qed.

Lemma traces_tryCatch {A} (m : M (World S) A) (h : JsError -> M (World S) A) :
  traces allowed m -> (forall e, traces allowed (h e)) ->
  traces allowed (tryCatch m h).
Proof.
  intros Hm Hh w. unfold tryCatch. specialize (Hm w).
  destruct (m w) as [w1 [a|e]]; cbn [fst] in *; [exact Hm|].
  eapply extendsWith_trans; [exact Hm|apply Hh].
Qed.

Lemma traces_when (b : bool) (m : M (World S) unit) :
  traces allowed m -> traces allowed (when b m).
Proof. intros Hm. destruct b; [exact Hm|apply traces_ret]. Qed.

Lemma traces_logsOnly (m : M (World S) unit) :
  logsOnly m -> traces allowed m.
Proof.
  intros Hm w. destruct (Hm w) as [lines Hrun]. rewrite Hrun.
  exists []. split; [symmetry; apply app_nil_r|reflexivity].
Qed.

Lemma tracesFrame_inWorld {A} (m : M (World S) A) :
  traces allowed m -> tracesFrame allowed (inWorld m).
Proof.
  intros Hm frame. unfold inWorld. specialize (Hm (world frame)).
  destruct (m (world frame)) as [w1 r]. exact Hm.
Qed.

Lemma tracesFrame_bind {A B} (m : M (Frame S) A) (k : A -> M (Frame S) B) :
  tracesFrame allowed m -> (forall a, tracesFrame allowed (k a)) ->
  tracesFrame allowed (bind m k).
Proof.
  intros Hm Hk frame. unfold bind. specialize (Hm frame).
  destruct (m frame) as [f1 [a|e]]; cbn [fst] in *; [|exact Hm].
  eapply extendsWith_trans; [exact Hm|apply Hk].
Qed.

Lemma tracesFrame_tryCatch {A} (m : M (Frame S) A)
  (h : JsError -> M (Frame S) A) :
  tracesFrame allowed m -> (forall e, tracesFrame allowed (h e)) ->
  tracesFrame allowed (tryCatch m h).
Proof.
  intros Hm Hh frame. unfold tryCatch. specialize (Hm frame).
  destruct (m frame) as [f1 [a|e]]; cbn [fst] in *; [exact Hm|].
  eapply extendsWith_trans; [exact Hm|apply Hh].
Qed.

Lemma tracesFrame_promiseAll (tasks : list (M (Frame S) unit)) :
  (forall task, In task tasks -> tracesFrame allowed task) ->
  tracesFrame allowed (promiseAll tasks).
Proof.
  induction tasks as [|task tasks IH]; intros Hall frame.
  - apply extendsWith_refl.
  - cbn [promiseAll].
    pose proof (Hall task (or_introl eq_refl) frame) as H1.
    destruct (task frame) as [f1 r1]. cbn [fst] in H1.
    pose proof (IH (fun t Ht => Hall t (or_intror Ht)) f1) as H2.
    destruct (promiseAll tasks f1) as [f2 r2]. cbn [fst] in *.
    eapply extendsWith_trans; [exact H1|exact H2].
Qed.

End Traces.

Section CopierCalls.
Context {S : Type} `{Host S} `{Minimatch}.
Variable allowed : Call -> bool.
Hypothesis allowed_entry :
  forall c, isEntryCall c = true -> allowed c = true.

Lemma copyEntry_calls (root out : str) (verbose : bool) (entry : str) :
  tracesFrame allowed (copyEntry root out verbose entry).
Proof.
  unfold copyEntry.
  apply tracesFrame_bind;
    [apply tracesFrame_inWorld, traces_hostCall, allowed_entry; reflexivity|].
  intros _. apply tracesFrame_tryCatch.
  - apply tracesFrame_bind.
    + apply tracesFrame_inWorld. unfold copyOne. apply traces_bind.
      * apply traces_hostCall, allowed_entry. reflexivity.
      * intros [|] _; apply traces_hostCall, allowed_entry; reflexivity.
    + intros _. apply tracesFrame_bind; [intros f; apply extendsWith_refl|].
      intros _. apply tracesFrame_bind; [intros f; apply extendsWith_refl|].
      intros count. destruct (verbose && (count mod 100 =? 0)%nat);
        cbn [when]; [|intros f; apply extendsWith_refl].
      apply tracesFrame_inWorld, traces_consoleLog.
  - intros e. apply tracesFrame_inWorld, traces_consoleError.
Qed.

Lemma copyBatches_calls (root out : str) (verbose : bool)
  (entries : list str) :
  forall (i : nat) (frame : Frame S),
    extendsWith allowed (world frame)
      (world (fst (copyBatches root out verbose entries i frame))).
Proof.
  intros i. remember (length entries - i) as todo eqn:Htodo.
  revert i Htodo. induction todo as [todo IH] using lt_wf_ind.
  intros i Htodo frame. rewrite copyBatches_unfolded.
  destruct (i <? length entries)%nat eqn:Hlt;
    [|apply extendsWith_refl].
  apply Nat.ltb_lt in Hlt.
  assert (Hbatch :
    tracesFrame allowed
      (promiseAll (map (copyEntry root out verbose)
                       (arraySlice entries i (i + BATCH_SIZE))))).
  { apply tracesFrame_promiseAll. intros task Htask.
    apply in_map_iff in Htask. destruct Htask as [e [<- _]].
    apply copyEntry_calls. }
  specialize (Hbatch frame).
  destruct (promiseAll _ frame) as [f1 [[]|e]]; cbn [fst] in *;
    [|exact Hbatch].
  eapply extendsWith_trans; [exact Hbatch|].
  apply (IH (length entries - (i + BATCH_SIZE)));
    [unfold BATCH_SIZE; lia|reflexivity].
Qed.

Lemma batchedCopy_calls (root out : str) (verbose : bool)
  (entries : list str) :
  traces allowed (batchedCopy root out verbose entries).
Proof.
  intros w. unfold batchedCopy.
  pose proof (copyBatches_calls root out verbose entries 0 (mkFrame w 0))
    as Hrun.
  destruct (copyBatches root out verbose entries 0 (mkFrame w 0))
    as [frame [[]|e]]; cbn [fst world] in *; [|exact Hrun].
  eapply extendsWith_trans; [exact Hrun|].
  apply traces_when, traces_consoleLog.
Qed.

End CopierCalls.

(** X13.  The batched copier calls nothing but [ensureDir], [stat] and
    [copy], and every [copy] is asked to preserve the timestamps and not
    to fail on an existing destination; it lists nothing, runs no command
    and removes nothing, whether it returns or throws. *)
Theorem batchedCopy_only_entry_calls {S : Type} `{Host S} (root out : str)
  (verbose : bool) (entries : list str) (w : World S) :
  extendsWith isEntryCall w (fst (batchedCopy root out verbose entries w)).
Proof.
  apply (batchedCopy_calls isEntryCall); auto.
Qed.

Section NodeCalls.
Context {S : Type} `{Host S} `{Minimatch}.

Lemma entry_call_notExec (c : Call) : isEntryCall c = true -> notExec c = true.
Proof. destruct c; simpl; intros Hc; try reflexivity; discriminate. Qed.

Lemma useNodeImplementation_calls (inputPath outputPath : str)
  (patterns : list str) (verbose : bool) :
  traces notExec (useNodeImplementation inputPath outputPath patterns verbose).
Proof.
  unfold useNodeImplementation. apply traces_bind.
  - apply traces_hostCall. reflexivity.
  - intros isDirectory _. destruct isDirectory; cbn [negb].
    + apply traces_bind; [apply traces_hostCall; reflexivity|].
      intros entries _. apply traces_bind;
        [apply traces_when, traces_consoleLog|].
      intros ? _. apply traces_bind;
        [apply traces_when, traces_consoleLog|].
      intros ? _. apply batchedCopy_calls. exact entry_call_notExec.
    + destruct (shouldExclude _ patterns).
      * apply traces_when, traces_consoleLog.
      * apply traces_bind; [apply traces_hostCall; reflexivity|].
        intros ? _. apply traces_when, traces_consoleLog.
Qed.

(** X14.  The robocopy command is run only on Windows and only for a
    directory: on any other platform, or when the source is not a
    directory, [copyFiles] makes no [execSync] call at all. *)
Theorem robocopy_only_for_windows_directories (inputPath outputPath : str)
  (options : CopyOptions) (w : World S) :
  str_eqb os_platform "win32" = false
  \/ (forall s, snd (fs_stat inputPath s) <> Return true) ->
  extendsWith notExec w (fst (copyFiles inputPath outputPath options w)).
Proof.
  intros Hcase.
  assert (Hrest : forall all v,
             traces notExec (copyFilesRest inputPath outputPath all v)).
  { intros all v. unfold copyFilesRest. apply traces_bind.
    - apply traces_when, traces_logsOnly. auto with logs.
    - intros ? _. apply traces_bind; [apply traces_hostCall; reflexivity|].
      intros isDirectory [w0 Hw0].
      assert (Hskip : str_eqb os_platform "win32" && isDirectory = false).
      { destruct Hcase as [Hos|Hfile]; [rewrite Hos; reflexivity|].
        unfold stat in Hw0. rewrite hostCall_effect in Hw0. cbn [snd] in Hw0.
        destruct isDirectory; [|apply andb_false_r].
        exfalso. exact (Hfile _ Hw0). }
      rewrite Hskip. apply traces_bind; [apply traces_ret|].
      intros returned _. destruct returned; [apply traces_ret|].
      apply useNodeImplementation_calls. }
  rewrite copyFiles_start. cbv zeta.
  destruct (fs_access inputPath (machine w)) as [s1 [[]|e]].
  - destruct (fs_ensureDir outputPath s1) as [s2 [[]|e]].
    + eapply extendsWith_trans; [|apply Hrest].
      exists [CallAccess inputPath; CallEnsureDir outputPath].
      split; reflexivity.
    + exists [CallAccess inputPath; CallEnsureDir outputPath].
      split; reflexivity.
  - exists [CallAccess inputPath]. split; reflexivity.
Qed.

(** The copy of a directory by [useNodeImplementation], after its [stat]
    call. *)
Lemma useNodeImplementation_directory (inputPath outputPath : str)
  (patterns : list str) (verbose : bool) (w : World S) (s1 : S) :
  fs_stat inputPath (machine w) = (s1, Return true) ->
  useNodeImplementation inputPath outputPath patterns verbose w
  = let trace := calls w ++ [CallStat inputPath;
                             CallGlob (path_resolve inputPath)] in
    match fg_all (path_resolve inputPath) s1 with
    | (s2, Throw e) => (mkWorld s2 (stdout w) (stderr w) trace, Throw e)
    | (s2, Return entries) =>
        let filteredEntries :=
          filter (fun entry => negb (shouldExclude entry patterns)) entries in
        batchedCopy (path_resolve inputPath) outputPath verbose
          filteredEntries
          (mkWorld s2
             (stdout w
              ++ listingLines verbose (length entries)
                              (length filteredEntries))
             (stderr w) trace)
    end.
Proof.
  intros Hstat. cbv zeta. unfold useNodeImplementation.
  unfold bind at 1. unfold stat. rewrite hostCall_effect, Hstat.
  cbn [fst snd negb]. unfold bind at 1. unfold glob.
  rewrite hostCall_effect. cbn [machine stdout stderr calls].
  rewrite <- app_assoc. cbn [app].
  destruct (fg_all (path_resolve inputPath) s1) as [s2 [entries|e]];
    cbn [fst snd]; [|reflexivity].
  destruct verbose; cbn [when listingLines].
  - unfold bind, consoleLog. cbn [machine stdout stderr calls].
    rewrite <- app_assoc. reflexivity.
  - unfold bind, ret. rewrite app_nil_r. reflexivity.
Qed.

(** X15.  When the source directory cannot be listed, the error of
    fast-glob leaves [useNodeImplementation] as it is: after [stat] and
    the listing no call is made, nothing is created or copied and nothing
    is written to the console. *)
Theorem listing_failure_propagates (inputPath outputPath : str)
  (patterns : list str) (verbose : bool) (w : World S) (s1 s2 : S)
  (e : JsError) :
  fs_stat inputPath (machine w) = (s1, Return true) ->
  fg_all (path_resolve inputPath) s1 = (s2, Throw e) ->
  useNodeImplementation inputPath outputPath patterns verbose w
  = (mkWorld s2 (stdout w) (stderr w)
       (calls w ++ [CallStat inputPath; CallGlob (path_resolve inputPath)]),
     Throw e).
Proof.
  intros Hstat Hglob.
  rewrite (useNodeImplementation_directory _ _ _ _ _ _ Hstat). cbv zeta.
  rewrite Hglob. reflexivity.
Qed.

(** X16.  When every listed entry is excluded, and so also when the source
    directory is empty, the copy of a directory returns without an error
    right after the listing: no directory is created and no file is
    copied. *)
Theorem all_excluded_copies_nothing (inputPath outputPath : str)
  (patterns : list str) (verbose : bool) (w : World S) (s1 s2 : S)
  (entries : list str) :
  fs_stat inputPath (machine w) = (s1, Return true) ->
  fg_all (path_resolve inputPath) s1 = (s2, Return entries) ->
  forallb (fun entry => shouldExclude entry patterns) entries = true ->
  snd (useNodeImplementation inputPath outputPath patterns verbose w)
  = Return tt
  /\ calls (fst (useNodeImplementation inputPath outputPath patterns verbose w))
     = calls w ++ [CallStat inputPath; CallGlob (path_resolve inputPath)]
  /\ machine (fst (useNodeImplementation inputPath outputPath patterns
                                         verbose w)) = s2
  /\ stderr (fst (useNodeImplementation inputPath outputPath patterns
                                        verbose w)) = stderr w.
Proof.
  intros Hstat Hglob Hall.
  rewrite (useNodeImplementation_directory _ _ _ _ _ _ Hstat). cbv zeta.
  rewrite Hglob.
  assert (Hnone : filter (fun entry => negb (shouldExclude entry patterns))
                         entries = []).
  { clear Hglob. induction entries as [|x entries IH]; [reflexivity|].
    simpl in Hall. apply andb_prop in Hall. destruct Hall as [Hx Hrest].
    simpl. rewrite Hx. apply IH. exact Hrest. }
  rewrite Hnone. unfold batchedCopy. rewrite copyBatches_unfolded.
  cbn [length Nat.ltb Nat.leb world]. destruct verbose; repeat split.
Qed.

End NodeCalls.

Lemma robocopy_only_for_windows_directories_witness :
  let host := scriptedHost flakyTree in
  (str_eqb (@os_platform unit host) "win32" = false
   \/ (forall s, snd (@fs_stat unit host "src" s) <> Return true))
  /\ extendsWith notExec emptyWorld
       (fst (@copyFiles unit host specMinimatch "src" "out"
               (mkCopyOptions [] false true) emptyWorld)).
Proof.
  intros host.
  assert (Hcase : str_eqb (@os_platform unit host) "win32" = false
                  \/ (forall s, snd (@fs_stat unit host "src" s)
                                <> Return true))
    by (left; reflexivity).
  split; [exact Hcase|].
  exact (@robocopy_only_for_windows_directories unit host specMinimatch
           "src" "out" (mkCopyOptions [] false true) emptyWorld Hcase).
Defined.

Lemma listing_failure_propagates_witness :
  let host : Host unit :=
    {| path_resolve := fun p => p;
       path_resolve2 := posixJoin;
       path_join := posixJoin;
       path_dirname := posixDirname;
       path_basename := posixBasename;
       os_platform := "linux";
       fs_access := fun _ s => (s, Return tt);
       fs_stat := fun _ s => (s, Return true);
       fs_ensureDir := fun _ s => (s, Return tt);
       fs_copy := fun _ _ _ s => (s, Return tt);
       fg_all := fun cwd s =>
         (s, Throw (errno "EACCES: permission denied" "scandir" cwd));
       execSync := fun _ _ s => (s, Return tt) |} in
  @useNodeImplementation unit host specMinimatch "src" "out" [] true
    emptyWorld
  = (mkWorld tt [] [] [CallStat "src"; CallGlob "src"],
     Throw (errno "EACCES: permission denied" "scandir" "src")).
Proof.
  intros host.
  exact (@listing_failure_propagates unit host specMinimatch "src" "out" []
           true emptyWorld tt tt
           (errno "EACCES: permission denied" "scandir" "src")
           eq_refl eq_refl).
Defined.

Lemma all_excluded_copies_nothing_witness :
  let host := scriptedHost (windowsScript 0) in
  (@fs_stat unit host "src" (machine emptyWorld) = (tt, Return true)
   /\ @fg_all unit host "src" tt = (tt, Return ["x.txt"; "y.log"])
   /\ forallb (fun entry => @shouldExclude specMinimatch entry ["*.*"])
              ["x.txt"; "y.log"] = true)
  /\ snd (@useNodeImplementation unit host specMinimatch "src" "out"
            ["*.*"] false emptyWorld) = Return tt
  /\ calls (fst (@useNodeImplementation unit host specMinimatch "src" "out"
                   ["*.*"] false emptyWorld))
     = [CallStat "src"; CallGlob "src"].
Proof.
  intros host.
  split; [repeat split; reflexivity|].
  destruct (@all_excluded_copies_nothing unit host specMinimatch "src" "out"
              ["*.*"] false emptyWorld tt tt ["x.txt"; "y.log"]
              eq_refl eq_refl eq_refl) as [Hres [Hcalls _]].
  split; [exact Hres|exact Hcalls].
Defined.

(* ===================================================================== *)
(** * Verbosity and the account of a run *)
(* ===================================================================== *)

Section Verbosity.
Context {S : Type} `{Host S} `{Minimatch}.
Variables (root out : str).

Lemma sameFrames_refl (frame : Frame S) : sameFrames frame frame.
Proof. repeat split. Qed.

Lemma copyEntry_verbose (v1 v2 : bool) (entry : str) (f1 f2 : Frame S) :
  sameFrames f1 f2 ->
  sameFrames (fst (copyEntry root out v1 entry f1))
             (fst (copyEntry root out v2 entry f2))
  /\ snd (copyEntry root out v1 entry f1)
     = snd (copyEntry root out v2 entry f2).
Proof.
  intros [[Hm [He Hc]] Hn].
  destruct f1 as [[m1 o1 e1 c1] n1], f2 as [[m2 o2 e2 c2] n2].
  cbn [world copiedCount machine stdout stderr calls] in *. subst.
  unfold copyEntry, copyOne.
  unfold bind, tryCatch, inWorld, ensureDir, stat, copy.
  unfold hostCall, incrementCopied, readCopied, when, consoleLog,
    consoleError, ret, sameFrames, sameEffects.
  cbn [world copiedCount machine stdout stderr calls].
  destruct (fs_ensureDir (path_dirname (path_join out entry)) m2)
    as [s1 [[]|err]]; cbn [fst snd world copiedCount machine stdout stderr calls];
    [|repeat split].
  destruct (fs_stat (path_join root entry) s1) as [s2 [[|]|err]];
    cbn [fst snd world copiedCount machine stdout stderr calls];
    [| |repeat split].
  - destruct (fs_ensureDir (path_join out entry) s2) as [s3 [[]|err]];
      cbn [fst snd world copiedCount machine stdout stderr calls];
      [|repeat split].
    destruct (v1 && ((n2 + 1) mod 100 =? 0)%nat),
      (v2 && ((n2 + 1) mod 100 =? 0)%nat); repeat split.
  - destruct (fs_copy (path_join root entry) (path_join out entry)
                      (Some (mkFsCopyOptions true false)) s2)
      as [s3 [[]|err]];
      cbn [fst snd world copiedCount machine stdout stderr calls];
      [|repeat split].
    destruct (v1 && ((n2 + 1) mod 100 =? 0)%nat),
      (v2 && ((n2 + 1) mod 100 =? 0)%nat); repeat split.
Qed.

Lemma promiseAll_verbose (v1 v2 : bool) (entries : list str) :
  forall f1 f2 : Frame S,
    sameFrames f1 f2 ->
    sameFrames
      (fst (promiseAll (map (copyEntry root out v1) entries) f1))
      (fst (promiseAll (map (copyEntry root out v2) entries) f2))
    /\ snd (promiseAll (map (copyEntry root out v1) entries) f1)
       = snd (promiseAll (map (copyEntry root out v2) entries) f2).
Proof.
  induction entries as [|e entries IH]; intros f1 f2 Hsame.
  - split; [exact Hsame|reflexivity].
  - cbn [map promiseAll].
    destruct (copyEntry_verbose v1 v2 e f1 f2 Hsame) as [Hf Hr].
    destruct (copyEntry root out v1 e f1) as [g1 r1].
    destruct (copyEntry root out v2 e f2) as [g2 r2].
    cbn [fst snd] in Hf, Hr. subst r2.
    destruct (IH g1 g2 Hf) as [Hf' Hr'].
    destruct (promiseAll (map (copyEntry root out v1) entries) g1)
      as [h1 q1].
    destruct (promiseAll (map (copyEntry root out v2) entries) g2)
      as [h2 q2].
    cbn [fst snd] in *. subst q2. split; [exact Hf'|reflexivity].
Qed.

Lemma copyBatches_verbose (v1 v2 : bool) (entries : list str) :
  forall (i : nat) (f1 f2 : Frame S),
    sameFrames f1 f2 ->
    sameFrames (fst (copyBatches root out v1 entries i f1))
               (fst (copyBatches root out v2 entries i f2))
    /\ snd (copyBatches root out v1 entries i f1)
       = snd (copyBatches root out v2 entries i f2).
Proof.
  intros i. remember (length entries - i) as todo eqn:Htodo.
  revert i Htodo. induction todo as [todo IH] using lt_wf_ind.
  intros i Htodo f1 f2 Hsame. rewrite !copyBatches_unfolded.
  destruct (i <? length entries)%nat eqn:Hlt;
    [|split; [exact Hsame|reflexivity]].
  apply Nat.ltb_lt in Hlt.
  destruct (promiseAll_verbose v1 v2
              (arraySlice entries i (i + BATCH_SIZE)) f1 f2 Hsame)
    as [Hf Hr].
  destruct (promiseAll (map (copyEntry root out v1) _) f1) as [g1 r1].
  destruct (promiseAll (map (copyEntry root out v2) _) f2) as [g2 r2].
  cbn [fst snd] in Hf, Hr. subst r2.
  destruct r1 as [[]|e]; [|split; [exact Hf|reflexivity]].
  apply (IH (length entries - (i + BATCH_SIZE)));
    [unfold BATCH_SIZE; lia|reflexivity|exact Hf].
Qed.

Lemma batchedCopy_verbose (v1 v2 : bool) (entries : list str)
  (w1 w2 : World S) :
  sameEffects w1 w2 ->
  sameEffects (fst (batchedCopy root out v1 entries w1))
              (fst (batchedCopy root out v2 entries w2))
  /\ snd (batchedCopy root out v1 entries w1)
     = snd (batchedCopy root out v2 entries w2).
Proof.
  intros Hsame. unfold batchedCopy.
  destruct (copyBatches_verbose v1 v2 entries 0 (mkFrame w1 0) (mkFrame w2 0))
    as [[Hw Hn] Hr]; [split; [exact Hsame|reflexivity]|].
  destruct (copyBatches root out v1 entries 0 (mkFrame w1 0)) as [g1 r1].
  destruct (copyBatches root out v2 entries 0 (mkFrame w2 0)) as [g2 r2].
  cbn [fst snd] in *. subst r2.
  destruct r1 as [[]|e]; [|split; [exact Hw|reflexivity]].
  destruct v1, v2; cbn [when]; unfold consoleLog, ret; cbn [fst snd];
    (split; [|reflexivity]); exact Hw.
Qed.

End Verbosity.

Section VerbosityNode.
Context {S : Type} `{Host S} `{Minimatch}.

(** X17.  Verbosity changes what [useNodeImplementation] writes to the
    standard output and nothing else: a verbose and a quiet run from the
    same world make the same calls, leave the machine in the same state,
    write the same lines to the error stream and end in the same way. *)
Theorem verbose_changes_only_stdout (inputPath outputPath : str)
  (patterns : list str) (w : World S) :
  sameEffects
    (fst (useNodeImplementation inputPath outputPath patterns true w))
    (fst (useNodeImplementation inputPath outputPath patterns false w))
  /\ snd (useNodeImplementation inputPath outputPath patterns true w)
     = snd (useNodeImplementation inputPath outputPath patterns false w).
Proof.
  destruct (fs_stat inputPath (machine w)) as [s1 [[|]|e]] eqn:Hstat.
  - rewrite !(useNodeImplementation_directory _ _ _ _ _ _ Hstat). cbv zeta.
    destruct (fg_all (path_resolve inputPath) s1) as [s2 [entries|e]];
      [|repeat split].
    apply batchedCopy_verbose. repeat split.
  - unfold useNodeImplementation, bind, stat. rewrite !hostCall_effect, Hstat.
    cbn [fst snd negb].
    destruct (shouldExclude (path_basename inputPath) patterns);
      [repeat split|].
    unfold copy. rewrite !hostCall_effect.
    cbn [machine stdout stderr calls].
    destruct (fs_copy inputPath _ None s1) as [s2 [[]|e]]; repeat split.
  - unfold useNodeImplementation, bind, stat. rewrite !hostCall_effect, Hstat.
    repeat split.
Qed.

End VerbosityNode.

Section Tally.
Context {S : Type} `{Host S}.
Variables (root out : str) (verbose : bool).

Lemma copyEntry_tally (entry : str) (frame : Frame S) :
  match snd (copyEntry root out verbose entry frame) with
  | Return _ =>
      tally (fst (copyEntry root out verbose entry frame)) = tally frame + 1
  | Throw _ =>
      tally (fst (copyEntry root out verbose entry frame)) = tally frame
  end.
Proof.
  pose proof (copyEntry_step root out verbose entry frame) as Hstep.
  cbv zeta in Hstep. unfold tally.
  destruct (snd (fs_ensureDir (path_dirname (path_join out entry))
                              (machine (world frame)))).
  - destruct Hstep as [frame' [Heq [Hone _]]]. rewrite Heq. cbn [fst snd].
    destruct (copyOneResult root out entry frame); destruct Hone as [Hc He];
      rewrite Hc, He; [lia|].
    rewrite length_app. simpl. lia.
  - rewrite Hstep. cbn [fst snd world copiedCount]. unfold ensureDir.
    rewrite hostCall_effect. reflexivity.
Qed.

Lemma promiseAll_tally (entries : list str) :
  forall frame : Frame S,
    tally (fst (promiseAll (map (copyEntry root out verbose) entries) frame))
    <= tally frame + length entries
    /\ (snd (promiseAll (map (copyEntry root out verbose) entries) frame)
        = Return tt ->
        tally (fst (promiseAll (map (copyEntry root out verbose) entries)
                               frame))
        = tally frame + length entries).
Proof.
  induction entries as [|e entries IH]; intros frame.
  - cbn. split; [lia|intros _; lia].
  - cbn [map promiseAll length].
    pose proof (copyEntry_tally e frame) as H1.
    destruct (copyEntry root out verbose e frame) as [f1 r1].
    cbn [fst snd] in H1. destruct (IH f1) as [Hle Heq].
    destruct (promiseAll (map (copyEntry root out verbose) entries) f1)
      as [f2 r2].
    cbn [fst snd] in *. destruct r1 as [[]|e1].
    + split; [lia|]. intros Hr. specialize (Heq Hr). lia.
    + split; [lia|discriminate].
Qed.

Lemma arraySlice_length (entries : list str) (i : nat) :
  length (arraySlice entries i (i + BATCH_SIZE))
  = Nat.min BATCH_SIZE (length entries - i).
Proof.
  unfold arraySlice. rewrite length_firstn, length_skipn.
  replace (i + BATCH_SIZE - i) with BATCH_SIZE by lia. reflexivity.
Qed.

Lemma copyBatches_tally (entries : list str) :
  forall (i : nat) (frame : Frame S),
    tally (fst (copyBatches root out verbose entries i frame))
    <= tally frame + (length entries - i)
    /\ (snd (copyBatches root out verbose entries i frame) = Return tt ->
        tally (fst (copyBatches root out verbose entries i frame))
        = tally frame + (length entries - i)).
Proof.
  intros i. remember (length entries - i) as todo eqn:Htodo.
  revert i Htodo. induction todo as [todo IH] using lt_wf_ind.
  intros i Htodo frame. rewrite copyBatches_unfolded.
  destruct (i <? length entries)%nat eqn:Hlt.
  - apply Nat.ltb_lt in Hlt.
    destruct (promiseAll_tally (arraySlice entries i (i + BATCH_SIZE)) frame)
      as [Hle Heq].
    rewrite arraySlice_length in Hle, Heq.
    destruct (promiseAll _ frame) as [f1 r1]. cbn [fst snd] in Hle, Heq.
    destruct r1 as [[]|e]; cbn [fst snd].
    + specialize (Heq eq_refl).
      destruct (IH (length entries - (i + BATCH_SIZE))
                   ltac:(unfold BATCH_SIZE; lia) (i + BATCH_SIZE) eq_refl f1)
        as [Hle' Heq'].
      unfold BATCH_SIZE in *. split; [lia|].
      intros Hr. specialize (Heq' Hr). lia.
    + split; [lia|discriminate].
  - apply Nat.ltb_ge in Hlt. cbn [fst snd]. split; [lia|intros _; lia].
Qed.

(** X18.  The batched copier accounts for no entry twice: at the end of
    its loop the counter of copied entries plus the number of lines added
    to the error stream is at most the number of entries, whatever fails,
    and when the loop ends without throwing it is exactly the number of
    entries. *)
Theorem copied_plus_failed (entries : list str) (w : World S) :
  let run := copyBatches root out verbose entries 0 (mkFrame w 0) in
  copiedCount (fst run) + length (stderr (world (fst run)))
  <= length (stderr w) + length entries
  /\ (snd run = Return tt ->
      copiedCount (fst run) + length (stderr (world (fst run)))
      = length (stderr w) + length entries).
Proof.
  cbv zeta.
  destruct (copyBatches_tally entries 0 (mkFrame w 0)) as [Hle Heq].
  unfold tally in *. cbn [world copiedCount] in *.
  rewrite Nat.sub_0_r in *. split; [lia|].
  intros Hr. specialize (Heq Hr). lia.
Qed.

End Tally.

Lemma copied_plus_failed_witness :
  let entries := ["x.txt"; "gone.txt"; "sub"; "locked.txt"; "sub/y.txt"] in
  let run := @copyBatches unit (scriptedHost flakyScript) "src" "out" false
               entries 0 (mkFrame emptyWorld 0) in
  snd run = Return tt
  /\ copiedCount (fst run) = 3
  /\ copiedCount (fst run) + length (stderr (world (fst run)))
     = length (stderr emptyWorld) + length entries.
Proof.
  intros entries run.
  assert (Hret : snd run = Return tt) by reflexivity.
  split; [exact Hret|]. split; [reflexivity|].
  exact (proj2 (@copied_plus_failed unit (scriptedHost flakyScript)
                  "src" "out" false entries emptyWorld) Hret).
Defined.

(* ===================================================================== *)
(** * The action of the command *)
(* ===================================================================== *)

Section ActionFacts.
Context {S : Type} `{Host S} `{Minimatch}.

(** X19.  When the source path does not exist, the command writes the one
    line [Error: Source path does not exist: <inputPath>] to the error
    stream and exits with status 1, having called nothing but
    [fs.access]. *)
Theorem action_source_missing (inputPath outputPath : str)
  (exclude : option (list str)) (skipDefaults verboseFlag : bool)
  (w : World S) (s1 : S) (e : JsError) :
  fs_access inputPath (machine w) = (s1, Throw e) ->
  let run := action inputPath outputPath exclude skipDefaults verboseFlag w in
  snd run = Some 1
  /\ stderr (fst run)
     = stderr w
       ++ [Colored Red ("Error: Source path does not exist: " ++ inputPath)]
  /\ calls (fst run) = calls w ++ [CallAccess inputPath]
  /\ machine (fst run) = s1.
Proof.
  intros Haccess. cbv zeta. unfold action.
  rewrite copyFiles_start. cbv zeta. rewrite Haccess.
  repeat split.
Qed.

End ActionFacts.

Lemma action_source_missing_witness :
  let host := scriptedHost missingScript in
  let e := errno "ENOENT: no such file or directory" "access" "src" in
  @fs_access unit host "src" (machine emptyWorld) = (tt, Throw e)
  /\ snd (@action unit host specMinimatch "src" "out" (Some ["*.tmp,*.bak"])
            false false emptyWorld) = Some 1
  /\ stderr (fst (@action unit host specMinimatch "src" "out"
                    (Some ["*.tmp,*.bak"]) false false emptyWorld))
     = [Colored Red "Error: Source path does not exist: src"].
Proof.
  intros host e.
  assert (Haccess : @fs_access unit host "src" (machine emptyWorld)
                    = (tt, Throw e)) by reflexivity.
  split; [exact Haccess|].
  destruct (@action_source_missing unit host specMinimatch "src" "out"
              (Some ["*.tmp,*.bak"]) false false emptyWorld tt e Haccess)
    as [Hexit [Herr _]].
  split; [exact Hexit|exact Herr].
Defined.

(* ===================================================================== *)
(** * Where the batched copier stops *)
(* ===================================================================== *)

Section Boundaries.
Context {S : Type} `{Host S}.
Variables (root out : str) (verbose : bool).

Lemma firstn_add {A} (n m : nat) (l : list A) :
  firstn (n + m) l = firstn n l ++ firstn m (skipn n l).
Proof.
  revert l. induction n as [|n IH]; intros l; [reflexivity|].
  destruct l as [|x l]; [simpl; rewrite firstn_nil; reflexivity|].
  simpl. rewrite IH. reflexivity.
Qed.

Lemma firstn_incl {A} (n m : nat) (l : list A) (x : A) :
  n <= m -> In x (firstn n l) -> In x (firstn m l).
Proof.
  intros Hnm Hx. replace m with (n + (m - n)) by lia.
  rewrite firstn_add. apply in_or_app. left. exact Hx.
Qed.

Lemma arraySlice_firstn (entries : list str) (i n : nat) (x : str) :
  i + BATCH_SIZE <= n ->
  In x (arraySlice entries i (i + BATCH_SIZE)) -> In x (firstn n entries).
Proof.
  intros Hn Hx. apply (firstn_incl (i + BATCH_SIZE) n); [exact Hn|].
  rewrite firstn_add. apply in_or_app. right.
  unfold arraySlice in Hx.
  replace (i + BATCH_SIZE - i) with BATCH_SIZE in Hx by lia. exact Hx.
Qed.

Lemma extendsWith_weaken (allowed allowed' : Call -> bool) (w w' : World S) :
  (forall c, allowed c = true -> allowed' c = true) ->
  extendsWith allowed w w' -> extendsWith allowed' w w'.
Proof.
  intros Hsub [more [Hcalls Hall]]. exists more. split; [exact Hcalls|].
  rewrite forallb_forall in *. intros c Hc. apply Hsub, Hall, Hc.
Qed.

Lemma isCallOfSome_In (entries : list str) (entry : str) (c : Call) :
  In entry entries ->
  isCallOf root out entry c = true ->
  isCallOfSome root out entries c = true.
Proof.
  intros Hin Hc. unfold isCallOfSome. apply existsb_exists.
  exists entry. split; assumption.
Qed.

Lemma isCallOfSome_incl (entries entries' : list str) (c : Call) :
  (forall entry, In entry entries -> In entry entries') ->
  isCallOfSome root out entries c = true ->
  isCallOfSome root out entries' c = true.
Proof.
  intros Hsub Hc. unfold isCallOfSome in *. apply existsb_exists in Hc.
  destruct Hc as [entry [Hin Hcall]]. apply existsb_exists.
  exists entry. split; [apply Hsub, Hin|exact Hcall].
Qed.

(** Every call of a closure is a call of its entry. *)
Lemma copyEntry_own_calls (entry : str) :
  tracesFrame (isCallOf root out entry) (copyEntry root out verbose entry).
Proof.
  unfold copyEntry.
  apply tracesFrame_bind.
  { apply tracesFrame_inWorld, traces_hostCall. cbn [isCallOf].
    rewrite str_eqb_refl. reflexivity. }
  intros _. apply tracesFrame_tryCatch.
  - apply tracesFrame_bind.
    + apply tracesFrame_inWorld. unfold copyOne. apply traces_bind.
      * apply traces_hostCall. cbn [isCallOf]. apply str_eqb_refl.
      * intros [|] _; apply traces_hostCall; cbn [isCallOf];
          rewrite ?str_eqb_refl, ?orb_true_r; reflexivity.
    + intros _. apply tracesFrame_bind; [intros f; apply extendsWith_refl|].
      intros _. apply tracesFrame_bind; [intros f; apply extendsWith_refl|].
      intros count. destruct (verbose && (count mod 100 =? 0)%nat);
        cbn [when]; [|intros f; apply extendsWith_refl].
      apply tracesFrame_inWorld, traces_consoleLog.
  - intros e. apply tracesFrame_inWorld, traces_consoleError.
Qed.

Lemma promiseAll_own_calls (batch : list str) :
  tracesFrame (isCallOfSome root out batch)
    (promiseAll (map (copyEntry root out verbose) batch)).
Proof.
  apply tracesFrame_promiseAll. intros task Htask.
  apply in_map_iff in Htask. destruct Htask as [entry [<- Hin]].
  intros frame.
  apply (extendsWith_weaken (isCallOf root out entry)).
  - intros c. apply isCallOfSome_In. exact Hin.
  - apply copyEntry_own_calls.
Qed.

(** A closure never lowers the tally, and a batch with a closure that
    throws accounts for fewer entries than it holds. *)
Lemma promiseAll_tally_throw (batch : list str) :
  forall frame : Frame S,
    tally frame
    <= tally (fst (promiseAll (map (copyEntry root out verbose) batch) frame))
    /\ forall e,
         snd (promiseAll (map (copyEntry root out verbose) batch) frame)
         = Throw e ->
         tally (fst (promiseAll (map (copyEntry root out verbose) batch)
                                frame))
         < tally frame + length batch.
Proof.
  induction batch as [|x batch IH]; intros frame.
  - cbn. split; [lia|discriminate].
  - cbn [map promiseAll length].
    pose proof (copyEntry_tally root out verbose x frame) as H1.
    destruct (copyEntry root out verbose x frame) as [f1 r1].
    destruct (IH f1) as [Hle Hlt].
    pose proof (proj1 (promiseAll_tally root out verbose batch f1)) as Hmax.
    destruct (promiseAll (map (copyEntry root out verbose) batch) f1)
      as [f2 r2].
    cbn [fst snd] in *.
    destruct r1 as [[]|e1].
    + destruct r2 as [[]|e2]; cbn [fst snd].
      * split; [lia|discriminate].
      * split; [lia|]. intros e _. specialize (Hlt e2 eq_refl). lia.
    + destruct r2 as [[]|e2]; cbn [fst snd]; (split; [lia|]);
        intros e _; lia.
Qed.

Lemma copyBatches_within (entries : list str) :
  forall (i : nat) (frame : Frame S) (e : JsError),
    snd (copyBatches root out verbose entries i frame) = Throw e ->
    exists k,
      let frame' := fst (copyBatches root out verbose entries i frame) in
      tally frame + k * BATCH_SIZE <= tally frame'
      /\ tally frame' < tally frame + k * BATCH_SIZE + BATCH_SIZE
      /\ tally frame' < tally frame + (length entries - i)
      /\ extendsWith
           (isCallOfSome root out
              (firstn (i + (k + 1) * BATCH_SIZE) entries))
           (world frame) (world frame').
Proof.
  intros i. remember (length entries - i) as todo eqn:Htodo.
  revert i Htodo. induction todo as [todo IH] using lt_wf_ind.
  intros i Htodo frame e. rewrite copyBatches_unfolded.
  destruct (i <? length entries)%nat eqn:Hlt; [|discriminate].
  apply Nat.ltb_lt in Hlt.
  pose proof (promiseAll_own_calls (arraySlice entries i (i + BATCH_SIZE))
                                   frame) as Hcalls.
  pose proof (promiseAll_tally_throw
                (arraySlice entries i (i + BATCH_SIZE)) frame)
    as [Hle Hthrow].
  pose proof (proj2 (promiseAll_tally root out verbose
                       (arraySlice entries i (i + BATCH_SIZE)) frame))
    as Hfull.
  rewrite arraySlice_length in *.
  destruct (promiseAll _ frame) as [f1 [[]|e1]]; cbn [fst snd] in *.
  - intros Hrun. specialize (Hfull eq_refl).
    destruct (IH (length entries - (i + BATCH_SIZE))
                 ltac:(unfold BATCH_SIZE; lia) (i + BATCH_SIZE) eq_refl
                 f1 e Hrun) as [k [Hlow [Hhigh [Hless Hlater]]]].
    cbv zeta in *.
    set (frame' := fst (copyBatches root out verbose entries
                                    (i + BATCH_SIZE) f1)) in *.
    exists (Datatypes.S k). unfold BATCH_SIZE in *.
    split; [lia|]. split; [lia|]. split; [lia|].
    eapply extendsWith_trans.
    + eapply extendsWith_weaken; [|exact Hcalls].
      intros c. apply isCallOfSome_incl. intros x.
      apply arraySlice_firstn. unfold BATCH_SIZE. lia.
    + replace (i + (Datatypes.S k + 1) * 100) with (i + 100 + (k + 1) * 100)
        by lia.
      exact Hlater.
  - intros _. specialize (Hthrow e1 eq_refl). exists 0.
    unfold BATCH_SIZE in *. cbv zeta. cbn [fst].
    split; [lia|]. split; [lia|]. split; [lia|].
    eapply extendsWith_weaken; [|exact Hcalls].
    intros c. apply isCallOfSome_incl. intros x.
    apply arraySlice_firstn. unfold BATCH_SIZE. lia.
Qed.

(** X21.  When a closure throws, no entry beyond its batch is touched.
    Let [done] be the number of entries that the loop has accounted for
    when it throws: those counted as copied and those whose failure was
    written to the error stream.  Then [done] is less than the number of
    entries, and every call of the run is a call of one of the entries
    of the batches up to the batch of entry number [done]: the parent
    directory, the source or the destination that the call names is the
    one of such an entry. *)
Theorem calls_stay_within_failing_batch (entries : list str) (w : World S)
  (e : JsError) :
  let run := copyBatches root out verbose entries 0 (mkFrame w 0) in
  let done :=
    copiedCount (fst run) + length (stderr (world (fst run)))
    - length (stderr w) in
  snd run = Throw e ->
  done < length entries
  /\ extendsWith
       (isCallOfSome root out
          (firstn ((done / BATCH_SIZE + 1) * BATCH_SIZE) entries))
       w (world (fst run)).
Proof.
  intros run done Hthrow.
  destruct (copyBatches_within entries 0 (mkFrame w 0) e Hthrow)
    as [k [Hlow [Hhigh [Hless Hcalls]]]].
  cbv zeta in *. fold run in Hlow, Hhigh, Hless, Hcalls.
  unfold tally in *. cbn [world copiedCount] in *.
  rewrite Nat.add_0_l in *. rewrite Nat.sub_0_r in Hless.
  assert (Hdone : done = copiedCount (fst run)
                         + length (stderr (world (fst run)))
                         - length (stderr w)) by reflexivity.
  split; [lia|].
  assert (Hk : done / BATCH_SIZE = k).
  { symmetry. apply (Nat.div_unique done BATCH_SIZE k (done - k * BATCH_SIZE));
      unfold BATCH_SIZE in *; lia. }
  rewrite Hk. exact Hcalls.
Qed.

End Boundaries.

Lemma calls_stay_within_failing_batch_witness :
  let e := errno "EEXIST: file already exists" "mkdir" "out/a" in
  let run := @copyBatches unit (scriptedHost blockedScript) "src" "out" false
               blockedEntries 0 (mkFrame emptyWorld 0) in
  let done :=
    copiedCount (fst run) + length (stderr (world (fst run)))
    - length (stderr emptyWorld) in
  snd run = Throw e
  /\ done = 99
  /\ done < length blockedEntries
  /\ extendsWith
       (@isCallOfSome unit (scriptedHost blockedScript) "src" "out"
          (firstn ((done / BATCH_SIZE + 1) * BATCH_SIZE) blockedEntries))
       emptyWorld (world (fst run)).
Proof.
  intros e run done.
  assert (Hthrow : snd run = Throw e) by (vm_compute; reflexivity).
  split; [exact Hthrow|]. split; [vm_compute; reflexivity|].
  exact (@calls_stay_within_failing_batch unit (scriptedHost blockedScript)
           "src" "out" false blockedEntries emptyWorld e Hthrow).
Defined.

(* ===================================================================== *)
(** * The account of a run that ends without throwing *)
(* ===================================================================== *)

Section Split.
Context {S : Type} `{Host S}.
Variables (root out : str) (verbose : bool).





End Split.


(* ===================================================================== *)
(** * Best effort *)
(* ===================================================================== *)

Section BestEffort.
Context {S : Type} `{Host S}.
Variables (root out : str) (verbose : bool).

(** The machine after one closure. *)
Lemma copyEntry_machine (entry : str) (frame : Frame S) :
  let sourcePath := path_join root entry in
  let destPath := path_join out entry in
  let s := machine (world frame) in
  machine (world (fst (copyEntry root out verbose entry frame)))
  = match fs_ensureDir (path_dirname destPath) s with
    | (s1, Throw _) => s1
    | (s1, Return _) =>
        match fs_stat sourcePath s1 with
        | (s2, Throw _) => s2
        | (s2, Return true) => fst (fs_ensureDir destPath s2)
        | (s2, Return false) =>
            fst (fs_copy sourcePath destPath
                         (Some (mkFsCopyOptions true false)) s2)
        end
    end.
Proof.
  cbv zeta. unfold copyEntry, copyOne.
  unfold bind at 1. unfold inWorld at 1. unfold ensureDir at 1.
  rewrite hostCall_effect.
  destruct (fs_ensureDir (path_dirname (path_join out entry))
                         (machine (world frame))) as [s1 [[]|e1]];
    cbn [fst snd]; [|reflexivity].
  unfold tryCatch. unfold bind at 1. unfold inWorld at 1.
  unfold bind at 1. unfold stat. rewrite hostCall_effect.
  cbn [machine stdout stderr calls world copiedCount].
  destruct (fs_stat (path_join root entry) s1) as [s2 [[|]|e2]];
    cbn [fst snd].
  - unfold ensureDir. rewrite hostCall_effect.
    cbn [machine stdout stderr calls world copiedCount].
    destruct (fs_ensureDir (path_join out entry) s2) as [s3 [[]|e3]];
      cbn [fst snd].
    + unfold bind, incrementCopied, readCopied.
      cbn [machine stdout stderr calls world copiedCount fst snd].
      destruct (verbose && _); cbn [when]; reflexivity.
    + reflexivity.
  - unfold copy. rewrite hostCall_effect.
    cbn [machine stdout stderr calls world copiedCount].
    destruct (fs_copy _ _ _ s2) as [s3 [[]|e3]]; cbn [fst snd].
    + unfold bind, incrementCopied, readCopied.
      cbn [machine stdout stderr calls world copiedCount fst snd].
      destruct (verbose && _); cbn [when]; reflexivity.
    + reflexivity.
  - reflexivity.
Qed.

Variables (entries : list str) (s0 : S).
Hypothesis Hparents : parentsCreatableFrom root out entries s0.

Lemma copyEntry_reachable (entry : str) (frame : Frame S) :
  In entry entries ->
  reachable root out entries s0 (machine (world frame)) ->
  snd (copyEntry root out verbose entry frame) = Return tt
  /\ reachable root out entries s0
       (machine (world (fst (copyEntry root out verbose entry frame)))).
Proof.
  intros Hin Hreach. split.
  - pose proof (copyEntry_step root out verbose entry frame) as Hstep.
    cbv zeta in Hstep.
    rewrite (Hparents entry _ Hin Hreach) in Hstep.
    destruct Hstep as [frame' [Heq _]]. rewrite Heq. reflexivity.
  - rewrite copyEntry_machine. cbv zeta.
    assert (H1 : reachable root out entries s0
                   (fst (fs_ensureDir (path_dirname (path_join out entry))
                                      (machine (world frame))))).
    { eapply reachable_step; [exact Hreach|exact Hin|]. left. reflexivity. }
    destruct (fs_ensureDir _ (machine (world frame))) as [s1 r1].
    cbn [fst] in H1. destruct r1 as [[]|e1]; [|exact H1].
    assert (H2 : reachable root out entries s0
                   (fst (fs_stat (path_join root entry) s1))).
    { eapply reachable_step; [exact H1|exact Hin|]. right. left.
      reflexivity. }
    destruct (fs_stat (path_join root entry) s1) as [s2 r2].
    cbn [fst] in H2. destruct r2 as [[|]|e2]; [| |exact H2].
    + eapply reachable_step; [exact H2|exact Hin|]. right. right. left.
      reflexivity.
    + eapply reachable_step; [exact H2|exact Hin|]. right. right. right.
      left. reflexivity.
Qed.

Lemma promiseAll_reachable (batch : list str) :
  (forall entry, In entry batch -> In entry entries) ->
  forall frame : Frame S,
    reachable root out entries s0 (machine (world frame)) ->
    snd (promiseAll (map (copyEntry root out verbose) batch) frame)
    = Return tt
    /\ reachable root out entries s0
         (machine (world
            (fst (promiseAll (map (copyEntry root out verbose) batch)
                             frame)))).
Proof.
  induction batch as [|e batch IH]; intros Hsub frame Hreach.
  - cbn. split; [reflexivity|exact Hreach].
  - cbn [map promiseAll].
    destruct (copyEntry_reachable e frame (Hsub e (or_introl eq_refl)) Hreach)
      as [Hret Hnext].
    destruct (copyEntry root out verbose e frame) as [f1 r1].
    cbn [fst snd] in *. subst r1.
    destruct (IH (fun x Hx => Hsub x (or_intror Hx)) f1 Hnext)
      as [Hret' Hlast].
    destruct (promiseAll (map (copyEntry root out verbose) batch) f1)
      as [f2 r2].
    cbn [fst snd] in *. subst r2. split; [reflexivity|exact Hlast].
Qed.

Lemma copyBatches_reachable :
  forall (i : nat) (frame : Frame S),
    reachable root out entries s0 (machine (world frame)) ->
    snd (copyBatches root out verbose entries i frame) = Return tt.
Proof.
  intros i. remember (length entries - i) as todo eqn:Htodo.
  revert i Htodo. induction todo as [todo IH] using lt_wf_ind.
  intros i Htodo frame Hreach. rewrite copyBatches_unfolded.
  destruct (i <? length entries)%nat eqn:Hlt.
  - apply Nat.ltb_lt in Hlt.
    destruct (promiseAll_reachable (arraySlice entries i (i + BATCH_SIZE))
                (fun x Hx => arraySlice_In _ _ _ _ Hx) frame Hreach)
      as [Hret Hnext].
    destruct (promiseAll _ frame) as [f1 r1]. cbn [fst snd] in *. subst r1.
    apply (IH (length entries - (i + BATCH_SIZE))
              ltac:(unfold BATCH_SIZE; lia) (i + BATCH_SIZE) eq_refl f1 Hnext).
  - reflexivity.
Qed.

(** In such a run every closure reaches the [try]: the source of its
    entry is passed to [stat]. *)
Lemma promiseAll_examined (batch : list str) :
  (forall entry, In entry batch -> In entry entries) ->
  forall frame : Frame S,
    reachable root out entries s0 (machine (world frame)) ->
    forall entry,
      In entry batch ->
      In (CallStat (path_join root entry))
         (calls (world
            (fst (promiseAll (map (copyEntry root out verbose) batch)
                             frame)))).
Proof.
  induction batch as [|x batch IH]; intros Hsub frame Hreach entry Hin;
    [destruct Hin|].
  cbn [map promiseAll].
  pose proof (copyEntry_step root out verbose x frame) as Hstep.
  cbv zeta in Hstep.
  rewrite (Hparents x _ (Hsub x (or_introl eq_refl)) Hreach) in Hstep.
  destruct Hstep as [f1 [Heq [_ [more Hcalls]]]].
  destruct (copyEntry_reachable x frame (Hsub x (or_introl eq_refl)) Hreach)
    as [_ Hnext].
  rewrite Heq in *. cbn [fst] in Hnext.
  specialize (IH (fun y Hy => Hsub y (or_intror Hy)) f1 Hnext).
  assert (Hgrows :
    extendsWith (fun _ => true) (world f1)
      (world (fst (promiseAll (map (copyEntry root out verbose) batch)
                              f1)))).
  { apply tracesFrame_promiseAll. intros task Htask.
    apply in_map_iff in Htask. destruct Htask as [y [<- _]].
    apply copyEntry_calls. reflexivity. }
  destruct (promiseAll (map (copyEntry root out verbose) batch) f1)
    as [f2 r2].
  cbn [fst] in *. destruct r2 as [[]|e2]; cbn [fst];
    (destruct Hin as [<-|Hin]; [|apply IH; exact Hin]);
    destruct Hgrows as [later [Hlater _]]; rewrite Hlater, Hcalls;
    apply in_or_app; left; apply in_or_app; right; simpl; tauto.
Qed.

Lemma copyBatches_examined :
  forall (i : nat) (frame : Frame S),
    reachable root out entries s0 (machine (world frame)) ->
    forall entry,
      In entry (skipn i entries) ->
      In (CallStat (path_join root entry))
         (calls (world (fst (copyBatches root out verbose entries i frame)))).
Proof.
  intros i. remember (length entries - i) as todo eqn:Htodo.
  revert i Htodo. induction todo as [todo IH] using lt_wf_ind.
  intros i Htodo frame Hreach entry Hin. rewrite copyBatches_unfolded.
  destruct (i <? length entries)%nat eqn:Hlt.
  - apply Nat.ltb_lt in Hlt.
    destruct (promiseAll_reachable (arraySlice entries i (i + BATCH_SIZE))
                (fun x Hx => arraySlice_In _ _ _ _ Hx) frame Hreach)
      as [Hret Hnext].
    pose proof (promiseAll_examined (arraySlice entries i (i + BATCH_SIZE))
                  (fun x Hx => arraySlice_In _ _ _ _ Hx) frame Hreach)
      as Hbatch.
    destruct (promiseAll _ frame) as [f1 r1]. cbn [fst snd] in *. subst r1.
    rewrite (arraySlice_skipn entries i) in Hin.
    apply in_app_or in Hin. destruct Hin as [Hin|Hin].
    + destruct (copyBatches_calls (fun _ => true) (fun _ _ => eq_refl)
                  root out verbose entries (i + BATCH_SIZE) f1)
        as [later [Hlater _]].
      rewrite Hlater. apply in_or_app. left. apply Hbatch. exact Hin.
    + apply (IH (length entries - (i + BATCH_SIZE))
                ltac:(unfold BATCH_SIZE; lia) (i + BATCH_SIZE) eq_refl f1
                Hnext entry Hin).
  - apply Nat.ltb_ge in Hlt. rewrite skipn_all2 in Hin by lia.
    destruct Hin.
Qed.

End BestEffort.

(** When no parent directory fails to be created in any state that the
    closures reach, every entry is examined: its source path is passed to
    [stat]. *)
Lemma batched_copy_examines_all {S : Type} `{Host S} (root out : str)
  (verbose : bool) (entries : list str) (w : World S) :
  parentsCreatableFrom root out entries (machine w) ->
  forall entry,
    In entry entries ->
    In (CallStat (path_join root entry))
       (calls (fst (batchedCopy root out verbose entries w))).
Proof.
  intros Hok entry Hin.
  pose proof (copyBatches_examined root out verbose entries (machine w) Hok
                0 (mkFrame w 0) (reachable_start _ _ _ _) entry Hin)
    as Hstat.
  pose proof (copyBatches_reachable root out verbose entries (machine w) Hok
                0 (mkFrame w 0) (reachable_start _ _ _ _)) as Hret.
  unfold batchedCopy.
  destruct (copyBatches root out verbose entries 0 (mkFrame w 0))
    as [frame r].
  cbn [fst snd] in *. subst r.
  destruct verbose; cbn [when fst]; exact Hstat.
Qed.

Section ActionBestEffort.
Context {S : Type} `{Host S} `{Minimatch}.

(** X20.  The copy is best effort.  On a platform other than Windows, let
    the source directory be accessed, the destination be created, the
    source be examined and listed, one call after the other, and let the
    parent directory of every entry that is kept be creatable in every
    state that the closures of the kept entries can reach from the state
    after the listing.  Then the command does not exit with status 1,
    whichever entries fail to be examined or copied. *)
Theorem action_best_effort (inputPath outputPath : str)
  (exclude : option (list str)) (skipDefaults verboseFlag : bool)
  (w : World S) (s1 s2 s3 s4 s5 : S) (entries : list str) :
  let user :=
    processExcludePatterns
      match exclude with Some tokens => tokens | None => [] end in
  let patterns :=
    if skipDefaults then user else DEFAULT_EXCLUDE_PATTERNS ++ user in
  let kept :=
    filter (fun entry => negb (shouldExclude entry patterns)) entries in
  str_eqb os_platform "win32" = false ->
  fs_access inputPath (machine w) = (s1, Return tt) ->
  fs_ensureDir outputPath s1 = (s2, Return tt) ->
  fs_stat inputPath s2 = (s3, Return true) ->
  fs_stat inputPath s3 = (s4, Return true) ->
  fg_all (path_resolve inputPath) s4 = (s5, Return entries) ->
  parentsCreatableFrom (path_resolve inputPath) outputPath kept s5 ->
  snd (action inputPath outputPath exclude skipDefaults verboseFlag w) = None.
Proof.
  intros user patterns kept Hos Haccess Hdest Hstat Hstat' Hglob Hparents.
  assert (Hrun :
    snd (copyFiles inputPath outputPath
           (mkCopyOptions user skipDefaults verboseFlag) w) = Return tt).
  { rewrite copyFiles_start. cbv zeta. rewrite Haccess, Hdest.
    cbn [ignoreDefaults excludePatterns verbose].
    fold patterns.
    set (w2 := mkWorld s2 _ _ _).
    unfold copyFilesRest. unfold bind at 1.
    set (announce := when _ _).
    assert (Hlogs : logsOnly announce).
    { unfold announce. auto 10 with logs. }
    destruct (Hlogs w2) as [lines Hlines]. rewrite Hlines. clear Hlines.
    set (w3 := mkWorld _ _ _ _).
    unfold bind at 1. unfold stat. rewrite hostCall_effect.
    unfold w3, w2. cbn [machine]. rewrite Hstat. cbn [fst snd].
    rewrite Hos. cbn [andb].
    unfold bind at 1. unfold ret at 1.
    set (w4 := mkWorld s3 _ _ _).
    rewrite (useNodeImplementation_directory inputPath outputPath patterns
               verboseFlag w4 s4 Hstat').
    cbv zeta. rewrite Hglob. fold kept.
    set (w5 := mkWorld s5 _ _ _).
    unfold batchedCopy.
    pose proof (@copyBatches_reachable S _ (path_resolve inputPath)
                  outputPath verboseFlag kept s5 Hparents 0 (mkFrame w5 0)
                  (reachable_start _ _ _ _)) as Hloop.
    destruct (copyBatches _ _ _ kept 0 (mkFrame w5 0)) as [frame r].
    cbn [snd] in Hloop. subst r.
    destruct verboseFlag; reflexivity. }
  unfold action. fold user.
  destruct (copyFiles inputPath outputPath _ w) as [w' r].
  cbn [snd] in Hrun. subst r. reflexivity.
Qed.

End ActionBestEffort.

Lemma disk_ensureDir_files (listing : list str) (p : str) (d : Disk) :
  diskFiles (fst (@fs_ensureDir Disk (diskHost listing) p d)) = diskFiles d.
Proof.
  cbn. destruct (mem p (diskFiles d)); reflexivity.
Qed.

Lemma disk_ensureDir_returns (listing : list str) (p : str) (d : Disk) :
  mem p (diskFiles d) = false ->
  snd (@fs_ensureDir Disk (diskHost listing) p d) = Return tt.
Proof.
  intros Hp. cbn. rewrite Hp. reflexivity.
Qed.

Lemma disk_copy_files (listing : list str) (src dest : str)
  (options : option FsCopyOptions) (d : Disk) :
  diskFiles (fst (@fs_copy Disk (diskHost listing) src dest options d))
  = if mem src (diskFiles d) then addPath dest (diskFiles d)
    else diskFiles d.
Proof.
  cbn. destruct (mem src (diskFiles d)); reflexivity.
Qed.

Lemma mem_addPath (p q : str) (paths : list str) :
  mem p paths = false ->
  str_eqb p q = false ->
  mem p (addPath q paths) = false.
Proof.
  intros Hp Hpq. unfold addPath. destruct (mem q paths); [exact Hp|].
  unfold mem in *. cbn [existsb]. rewrite Hpq, Hp. reflexivity.
Qed.

(** On the disk of the example, the closures put no file at [out],
    [out/sub] or [src/sub], which are directories. *)
Lemma sourceDisk_files (d : Disk) :
  @reachable Disk (diskHost sourceListing) "src" "out" sourceListing
             (mkDisk (diskFiles sourceDisk) ("out" :: diskDirs sourceDisk))
             d ->
  mem "out" (diskFiles d) = false
  /\ mem "out/sub" (diskFiles d) = false
  /\ mem "src/sub" (diskFiles d) = false.
Proof.
  intros Hreach. induction Hreach as [|d d' entry Hreach IH Hin Hstep].
  - repeat split.
  - destruct IH as [Hout [Hsub Hsrc]].
    destruct Hstep as [<-|[<-|[<-|[<-|[]]]]].
    + rewrite disk_ensureDir_files. auto.
    + cbn. auto.
    + rewrite disk_ensureDir_files. auto.
    + rewrite disk_copy_files.
      destruct Hin as [<-|[<-|[<-|[<-|[]]]]]; normal_paths;
        match goal with
        | |- context [if mem ?src _ then _ else _] =>
            destruct (mem src (diskFiles d)) eqn:Hfile
        end;
        try congruence; auto;
        repeat split; apply mem_addPath; auto.
Qed.

(** So the parent directory of every entry can be created in each of
    these states. *)
Lemma sourceDisk_parents :
  @parentsCreatableFrom Disk (diskHost sourceListing) "src" "out"
    sourceListing
    (mkDisk (diskFiles sourceDisk) ("out" :: diskDirs sourceDisk)).
Proof.
  intros entry d Hin Hreach.
  destruct (sourceDisk_files d Hreach) as [Hout [Hsub _]].
  destruct Hin as [<-|[<-|[<-|[<-|[]]]]]; normal_paths;
    apply disk_ensureDir_returns; assumption.
Qed.

Lemma action_best_effort_witness :
  let host := diskHost sourceListing in
  let created :=
    mkDisk (diskFiles sourceDisk) ("out" :: diskDirs sourceDisk) in
  (str_eqb (@os_platform Disk host) "win32" = false
   /\ @fs_access Disk host "src" sourceDisk = (sourceDisk, Return tt)
   /\ @fs_ensureDir Disk host "out" sourceDisk = (created, Return tt)
   /\ @fs_stat Disk host "src" created = (created, Return true)
   /\ @fg_all Disk host "src" created = (created, Return sourceListing)
   /\ @parentsCreatableFrom Disk host "src" "out" sourceListing created)
  /\ snd (@action Disk host specMinimatch "src" "out" None false false
            (diskWorld sourceDisk)) = None
  /\ stderr (fst (@action Disk host specMinimatch "src" "out" None false
                    false (diskWorld sourceDisk)))
     = [Colored Red
          "Failed to copy gone.txt: ENOENT: no such file or directory, stat 'src/gone.txt'"].
Proof.
  intros host created.
  assert (Hos : str_eqb (@os_platform Disk host) "win32" = false)
    by reflexivity.
  assert (Haccess : @fs_access Disk host "src" sourceDisk
                    = (sourceDisk, Return tt)) by reflexivity.
  assert (Hdest : @fs_ensureDir Disk host "out" sourceDisk
                  = (created, Return tt)) by reflexivity.
  assert (Hstat : @fs_stat Disk host "src" created = (created, Return true))
    by reflexivity.
  assert (Hglob : @fg_all Disk host "src" created
                  = (created, Return sourceListing)) by reflexivity.
  pose proof sourceDisk_parents as Hparents.
  split; [repeat split; assumption|].
  split; [|reflexivity].
  exact (@action_best_effort Disk host specMinimatch "src" "out" None false
           false (diskWorld sourceDisk) sourceDisk created created created
           created sourceListing Hos Haccess Hdest Hstat Hstat Hglob
           Hparents).
Defined.
